(** * Sapphillon-Front: workflow progress bridge, generation and run hooks

    A shallow embedding of the TypeScript sources

    - [src/lib/workflow-progress.ts]            (module [WorkflowProgress])
    - [pages/generate/useWorkflowGeneration]    (module [Generation])
    - [src/pages/workflows/useWorkflowRun.ts]   (modules [RunV1], [RunV2])
    - [src/pages/generate/PluginsPanel.tsx]     (module [Plugins])
    - [components/workflow/WorkflowProgressDots.tsx] (module [ProgressDots])
    - [components/workflow/WorkflowFunctionList.tsx] (module [FunctionList])

    JavaScript values are modelled as follows.  A string is a [string]
    whose characters are read as code units below 256.  A number that
    holds an index or a time stamp is a [Z].  [undefined] and [null] are
    [None].  A synchronous piece of code is a function on an explicit
    state that returns a completion (normal or thrown).  An [async]
    function is cut at its [await]s: one function for the code that runs
    up to the first [await], and one for the code that runs when the
    awaited promise settles; the local variables that live across the
    [await] are kept in a frame record. *)

From Stdlib Require Import ZArith Lia Bool Ascii.
From stdpp Require Import base option list strings gmap pretty.

Local Open Scope Z_scope.

(** ** JavaScript preliminaries *)

Module Js.

(** An [Error] object, as far as the sources look at one. *)
Record Error := mkError { name : string; message : string }.

(** How a synchronous call completes. *)
Inductive Completion (A : Type) : Type :=
| Normal (a : A)
| Throw (e : Error).
Arguments Normal {A} a.
Arguments Throw {A} e.

(** A settled promise. *)
Inductive Promise (A : Type) : Type :=
| Fulfilled (a : A)
| Rejected (e : Error).
Arguments Fulfilled {A} a.
Arguments Rejected {A} e.

(** [p.catch(h)]: a rejection is handed to [h], whose result fulfils
    the new promise. *)
Definition catch_ {A B} (p : Promise A) (h : Error -> B)
    : Promise (A + B) :=
  match p with
  | Fulfilled a => Fulfilled (inl a)
  | Rejected e => Fulfilled (inr (h e))
  end.

(** A promise dropped by an expression statement: when it is rejected
    and nobody handles it, the rejection is reported as unhandled. *)
Definition unhandled_of {A} (p : Promise A) : list Error :=
  match p with
  | Fulfilled _ => []
  | Rejected e => [e]
  end.

(** [s || d] on strings: the empty string is falsy. *)
Definition or_else (s d : string) : string :=
  if decide (s = "") then d else s.

(** White space removed by [String.prototype.trim], among the code
    units below 256: TAB, LF, VT, FF, CR, SP and NBSP. *)
Definition is_ws (c : Ascii.ascii) : bool :=
  match Ascii.N_of_ascii c with
  | 9 | 10 | 11 | 12 | 13 | 32 | 160 => true
  | _ => false
  end%N.

Fixpoint trim_start (s : string) : string :=
  match s with
  | String c s' => if is_ws c then trim_start s' else s
  | EmptyString => EmptyString
  end.

(** [s.trim()] *)
Definition trim (s : string) : string :=
  String.rev (trim_start (String.rev (trim_start s))).

(** [s.split(".")]: the pieces between the dots; never empty. *)
Fixpoint split_dot (s : string) : list string :=
  match s with
  | EmptyString => [EmptyString]
  | String c s' =>
      if Ascii.eqb c "."%char then EmptyString :: split_dot s'
      else match split_dot s' with
           | piece :: rest => String c piece :: rest
           | [] => [String c EmptyString]
           end
  end.

(** [a.pop()] on a fresh array of strings: its last element. *)
Definition pop (l : list string) : string := List.last l EmptyString.

(** [s.replace(/_/g, " ")] *)
Fixpoint replace_underscores (s : string) : string :=
  match s with
  | EmptyString => EmptyString
  | String c s' =>
      String (if Ascii.eqb c "_"%char then " "%char else c)
             (replace_underscores s')
  end.

(** Template literal [`${n}`] for an array index. *)
Definition of_index (n : nat) : string := pretty n.

End Js.

Import Js.

(** ** Generated protobuf messages

    The generated modules [@/gen/sapphillon/v1/*_pb] are not among the
    sources.  A message is modelled by the fields the sources read; an
    enum value by its number; a message nothing reads by an opaque
    token. *)

Module Proto.

(** [PermissionLevel]: the number of the enum value. *)
Definition PermissionLevel : Type := N.

Record Permission := { permissionLevel : PermissionLevel }.

Record PluginFunction := {
  functionId : string;
  functionName : string;
  description : string;
  permissions : list Permission
}.

Record PluginPackage := {
  packageId : string;
  packageName : string;
  functions : list PluginFunction
}.

Record WorkflowCode := {
  codeId : string;                       (* [id] *)
  code : string;
  pluginFunctionIds : list string;
  pluginPackages : list PluginPackage
}.

Record Workflow := {
  workflowId : string;                   (* [id] *)
  displayName : string;
  workflowCode : list WorkflowCode
}.

Record GenerateWorkflowResponse := {
  workflowDefinition : option Workflow
}.

Inductive RunWorkflowResponse := RunResponse (token : nat).

Record UpdateWorkflowResponse := { savedWorkflow : option Workflow }.

Record ListPluginsResponse := { listedPlugins : list PluginPackage }.

(** [a[a.length - 1]] *)
Definition latestCode (w : Workflow) : option WorkflowCode :=
  last (workflowCode w).

End Proto.

(** ** [src/lib/workflow-progress.ts] *)

Module WorkflowProgress.

Inductive StepStatus := SPending | SRunning | SCompleted | SError.

Record WorkflowProgressStep := {
  step_id : string;
  step_functionId : string;
  step_functionName : string;
  step_status : StepStatus;
  step_startedAt : option Z;
  step_completedAt : option Z
}.

Inductive MessageType :=
| workflow_progress_start
| workflow_progress_update
| workflow_progress_complete
| workflow_progress_error.

Inductive MessageStatus := MIdle | MRunning | MCompleted | MError.

Record WorkflowProgressMessage := {
  msg_type : MessageType;
  msg_workflowId : string;
  msg_workflowName : option string;
  msg_steps : option (list WorkflowProgressStep);
  msg_currentStepIndex : option Z;
  msg_status : option MessageStatus
}.

Record SendResult := { success : bool; error : option string }.

(** What one call of [window.OSAutomotor.sendWorkflowProgress] does:
    it hands back a promise, or it throws before doing so. *)
Inductive HostOutcome :=
| HostReturns (p : Promise SendResult)
| HostThrows (e : Error).

(** The host function; its behaviour may depend on the number of
    earlier calls. *)
Definition HostFn : Type := nat -> WorkflowProgressMessage -> HostOutcome.

Record OSAutomotorT := { sendWorkflowProgress : option HostFn }.

(** The [window] object with the calls the host has received and the
    promise rejections nobody handled. *)
Record Host := {
  OSAutomotor : option OSAutomotorT;
  posted : list WorkflowProgressMessage;
  unhandled : list Error
}.

(** [window.OSAutomotor?.sendWorkflowProgress] *)
Definition hostFn (h : Host) : option HostFn :=
  match OSAutomotor h with
  | Some o => sendWorkflowProgress o
  | None => None
  end.

Definition record_call (m : WorkflowProgressMessage) (errs : list Error)
    (h : Host) : Host :=
  {| OSAutomotor := OSAutomotor h;
     posted := posted h ++ [m];
     unhandled := unhandled h ++ errs |}.

Definition sendProgressMessage (message : WorkflowProgressMessage)
    (h : Host) : Completion unit * Host :=
  match hostFn h with
  | Some send =>
      match send (length (posted h)) message with
      | HostReturns p =>
          let handled := catch_ p (fun _ => tt) in
          (Normal tt, record_call message (unhandled_of handled) h)
      | HostThrows e => (Throw e, record_call message [] h)
      end
  | None => (Normal tt, h)
  end.

(** One element of [pluginFunctionIds.map((functionId, index) => ..)] *)
Definition parseStep (index : nat) (functionId : string)
    : WorkflowProgressStep :=
  {| step_id := "step-" +:+ of_index index;
     step_functionId := functionId;
     step_functionName := or_else (pop (split_dot functionId)) functionId;
     step_status := SPending;
     step_startedAt := None;
     step_completedAt := None |}.

Definition parseWorkflowSteps (pluginFunctionIds : list string)
    : list WorkflowProgressStep :=
  imap parseStep pluginFunctionIds.

Definition notifyWorkflowStart (workflowId workflowName : string)
    (steps : list WorkflowProgressStep) : Host -> Completion unit * Host :=
  sendProgressMessage
    {| msg_type := workflow_progress_start;
       msg_workflowId := workflowId;
       msg_workflowName := Some workflowName;
       msg_steps := Some steps;
       msg_currentStepIndex := Some 0;
       msg_status := Some MRunning |}.

Definition notifyStepUpdate (workflowId : string)
    (steps : list WorkflowProgressStep) (currentStepIndex : Z)
    : Host -> Completion unit * Host :=
  sendProgressMessage
    {| msg_type := workflow_progress_update;
       msg_workflowId := workflowId;
       msg_workflowName := None;
       msg_steps := Some steps;
       msg_currentStepIndex := Some currentStepIndex;
       msg_status := Some MRunning |}.

Definition notifyWorkflowComplete (workflowId : string)
    (steps : list WorkflowProgressStep) : Host -> Completion unit * Host :=
  sendProgressMessage
    {| msg_type := workflow_progress_complete;
       msg_workflowId := workflowId;
       msg_workflowName := None;
       msg_steps := Some steps;
       msg_currentStepIndex := Some (Z.of_nat (length steps) - 1);
       msg_status := Some MCompleted |}.

Definition notifyWorkflowError (workflowId : string)
    (steps : list WorkflowProgressStep) (currentStepIndex : Z)
    : Host -> Completion unit * Host :=
  sendProgressMessage
    {| msg_type := workflow_progress_error;
       msg_workflowId := workflowId;
       msg_workflowName := None;
       msg_steps := Some steps;
       msg_currentStepIndex := Some currentStepIndex;
       msg_status := Some MError |}.

(** The words of the specification for [functionName]: the text after
    the last dot of the id (the whole id when it has no dot). *)
Fixpoint has_dot (s : string) : bool :=
  match s with
  | EmptyString => false
  | String c s' => Ascii.eqb c "."%char || has_dot s'
  end.

Fixpoint after_last_dot (s : string) : string :=
  match s with
  | EmptyString => EmptyString
  | String c s' =>
      if has_dot s' then after_last_dot s'
      else if Ascii.eqb c "."%char then s' else s
  end.

End WorkflowProgress.

(** ** The environment of the hooks

    The clock behind [Date.now()], the requests handed to the generated
    RPC clients, the abort controllers, the host window and the
    console. *)

Module Env.
Import Proto WorkflowProgress.

(** A call of a client method: the request message and the [signal]
    of the call options, when one is passed. *)
Inductive Request :=
| generateWorkflow (prompt : string) (signal : option nat)
| runWorkflow (workflowId workflowCodeId : string) (signal : option nat)
| updateWorkflow (workflow : Workflow) (signal : option nat)
| listPlugins (pageSize : Z) (signal : option nat).

Definition signal_of (r : Request) : option nat :=
  match r with
  | generateWorkflow _ s | runWorkflow _ _ s
  | updateWorkflow _ s | listPlugins _ s => s
  end.

Record t := {
  clock : nat -> Z;             (* the value of the n-th [Date.now()] *)
  ticks : nat;                  (* [Date.now()] calls so far *)
  issued : list Request;        (* RPC calls so far, oldest first *)
  controllers : nat;            (* [new AbortController()] so far *)
  aborted : gset nat;           (* controllers whose signal is aborted *)
  host : Host;
  console : list (string * Error)
}.

(** [Date.now()] *)
Definition now (e : t) : Z * t :=
  (clock e (ticks e),
   {| clock := clock e; ticks := S (ticks e); issued := issued e;
      controllers := controllers e; aborted := aborted e;
      host := host e; console := console e |}).

Definition issue (r : Request) (e : t) : t :=
  {| clock := clock e; ticks := ticks e; issued := issued e ++ [r];
     controllers := controllers e; aborted := aborted e;
     host := host e; console := console e |}.

(** [new AbortController()] *)
Definition newAbortController (e : t) : nat * t :=
  (controllers e,
   {| clock := clock e; ticks := ticks e; issued := issued e;
      controllers := S (controllers e); aborted := aborted e;
      host := host e; console := console e |}).

(** [ac.abort()] *)
Definition abort (ac : nat) (e : t) : t :=
  {| clock := clock e; ticks := ticks e; issued := issued e;
     controllers := controllers e; aborted := {[ac]} ∪ aborted e;
     host := host e; console := console e |}.

(** [console.error(label, err)] *)
Definition console_error (label : string) (err : Error) (e : t) : t :=
  {| clock := clock e; ticks := ticks e; issued := issued e;
     controllers := controllers e; aborted := aborted e;
     host := host e; console := console e ++ [(label, err)] |}.

(** Run a piece of [workflow-progress.ts] on the host window. *)
Definition on_host {A} (f : Host -> Completion A * Host) (e : t)
    : Completion A * t :=
  let '(c, h) := f (host e) in
  (c, {| clock := clock e; ticks := ticks e; issued := issued e;
         controllers := controllers e; aborted := aborted e;
         host := h; console := console e |}).

End Env.

(** ** The event log shared by the two hooks *)

Module Log.
Import Proto.

Inductive Kind := message_ | error_ | done_.

(** The payloads the hooks put into an event. *)
Inductive Payload :=
| stage (stage : string) (status : option string)
        (workflowId : option string)
| generated (msg : GenerateWorkflowResponse)
| ran (res : RunWorkflowResponse)
| thrown (e : Error).

Record Event := { t : Z; kind : Kind; payload : option Payload }.

(** The updater of [append]: [(prev) => [...prev, { t: Date.now(), ...e }]];
    [Date.now()] is read when the event is built. *)
Definition append (k : Kind) (p : Payload) (events : list Event)
    (env : Env.t) : list Event * Env.t :=
  let '(time, env) := Env.now env in
  (events ++ [{| t := time; kind := k; payload := Some p |}], env).

End Log.

(** The outcome of running an [async] function up to its next [await]:
    it is suspended with a frame, or its promise has settled. *)
Inductive Async (F : Type) : Type :=
| Awaiting (frame : F)
| Settled (p : Promise unit).
Arguments Awaiting {F} frame.
Arguments Settled {F} p.

(** ** [useWorkflowGeneration] *)

Module Generation.
Import Proto Env Log.

(** The four [useState] cells and the [abortRef] of one hook instance. *)
Record State := {
  streaming : bool;
  events : list Event;
  latest : option GenerateWorkflowResponse;
  runRes : option RunWorkflowResponse;
  abortRef : option nat
}.

Definition initial : State :=
  {| streaming := false; events := []; latest := None; runRes := None;
     abortRef := None |}.

Definition setStreaming (b : bool) (s : State) : State :=
  {| streaming := b; events := events s; latest := latest s;
     runRes := runRes s; abortRef := abortRef s |}.

Definition setEvents (l : list Event) (s : State) : State :=
  {| streaming := streaming s; events := l; latest := latest s;
     runRes := runRes s; abortRef := abortRef s |}.

Definition setLatest (r : option GenerateWorkflowResponse) (s : State)
    : State :=
  {| streaming := streaming s; events := events s; latest := r;
     runRes := runRes s; abortRef := abortRef s |}.

Definition setRunRes (r : option RunWorkflowResponse) (s : State) : State :=
  {| streaming := streaming s; events := events s; latest := latest s;
     runRes := r; abortRef := abortRef s |}.

Definition setAbortRef (r : option nat) (s : State) : State :=
  {| streaming := streaming s; events := events s; latest := latest s;
     runRes := runRes s; abortRef := r |}.

Definition append (k : Kind) (p : Payload) (s : State) (env : Env.t)
    : State * Env.t :=
  let '(l, env) := Log.append k p (events s) env in
  (setEvents l s, env).

(** What the awaited stream hands to the [for await] loop. *)
Inductive StreamItem :=
| Yield (msg : GenerateWorkflowResponse)
| EndOfStream
| StreamThrows (e : Error).

(** The locals of [start] that live across the [await]. *)
Record StartFrame := { ac : nat }.

(** The [finally] block of [start]. *)
Definition start_finally (s : State) : State :=
  setAbortRef None (setStreaming false s).

(** [start(prompt)] up to the first [await] of the loop.  [streaming]
    is the value the callback closed over at the render that made it. *)
Definition start (streaming : bool) (prompt : string)
    (s : State) (env : Env.t) : Async StartFrame * State * Env.t :=
  if bool_decide (trim prompt = "") || streaming
  then (Settled (Fulfilled tt), s, env)
  else
    let s := setEvents [] s in
    let s := setRunRes None s in
    let s := setLatest None s in
    let s := setStreaming true s in
    let '(ac, env) := newAbortController env in
    let s := setAbortRef (Some ac) s in
    let env := issue (generateWorkflow prompt (Some ac)) env in
    (Awaiting {| ac := ac |}, s, env).

(** [start] resumed with the next item of the stream. *)
Definition start_resume (f : StartFrame) (item : StreamItem)
    (s : State) (env : Env.t) : Async StartFrame * State * Env.t :=
  match item with
  | Yield msg =>
      let s := setLatest (Some msg) s in
      let '(s, env) := append message_ (generated msg) s env in
      (Awaiting f, s, env)
  | EndOfStream =>
      let '(s, env) :=
        append done_ (stage "generate" None None) s env in
      (Settled (Fulfilled tt), start_finally s, env)
  | StreamThrows e =>
      if bool_decide (name e = "AbortError")
      then (Settled (Fulfilled tt), start_finally s, env)
      else
        let '(s, env) := append error_ (thrown e) s env in
        (Settled (Fulfilled tt), start_finally s, env)
  end.

(** [stop()] *)
Definition stop (s : State) (env : Env.t) : Env.t :=
  match abortRef s with
  | Some ac => abort ac env
  | None => env
  end.

(** [clearEvents()] *)
Definition clearEvents (s : State) : State := setEvents [] s.

(** The two [await]s of [runLatest]. *)
Inductive RunLatestFrame :=
| AwaitSave
| AwaitRun.

(** [runLatest()] up to its first [await]; [latest] is the value the
    callback closed over. *)
Definition runLatest (latest : option GenerateWorkflowResponse)
    (s : State) (env : Env.t) : Async RunLatestFrame * State * Env.t :=
  match latest ≫= workflowDefinition with
  | None => (Settled (Fulfilled tt), s, env)
  | Some wf =>
      let '(s, env) :=
        append message_ (stage "save" (Some "start") None) s env in
      let env := issue (updateWorkflow wf None) env in
      (Awaiting AwaitSave, s, env)
  end.

(** [runLatest] resumed when [updateWorkflow] settles. *)
Definition runLatest_saved (p : Promise UpdateWorkflowResponse)
    (s : State) (env : Env.t) : Async RunLatestFrame * State * Env.t :=
  let catch e :=
    let '(s, env) := append error_ (thrown e) s env in
    (Settled (Fulfilled tt), s, env) in
  match p with
  | Rejected e => catch e
  | Fulfilled saveResponse =>
      match savedWorkflow saveResponse with
      | Some wf =>
          if bool_decide (Proto.workflowId wf = "")
          then catch (mkError "Error"
                        "Failed to save workflow: no ID returned")
          else
            let workflowId := Proto.workflowId wf in
            let workflowCodeId :=
              match head (workflowCode wf) with
              | Some c => or_else (codeId c) ""
              | None => ""
              end in
            let '(s, env) :=
              append message_
                (stage "save" (Some "done") (Some workflowId)) s env in
            let '(s, env) :=
              append message_ (stage "run" (Some "start") None) s env in
            let env :=
              issue (Env.runWorkflow workflowId workflowCodeId None) env in
            (Awaiting AwaitRun, s, env)
      | None =>
          catch (mkError "Error" "Failed to save workflow: no ID returned")
      end
  end.

(** [runLatest] resumed when [runWorkflow] settles. *)
Definition runLatest_ran (p : Promise RunWorkflowResponse)
    (s : State) (env : Env.t) : Async RunLatestFrame * State * Env.t :=
  match p with
  | Fulfilled res =>
      let s := setRunRes (Some res) s in
      let '(s, env) := append message_ (ran res) s env in
      let '(s, env) := append done_ (stage "run" None None) s env in
      (Settled (Fulfilled tt), s, env)
  | Rejected e =>
      let '(s, env) := append error_ (thrown e) s env in
      (Settled (Fulfilled tt), s, env)
  end.

(** One whole [start(prompt)] call: [start], then [start_resume] for
    the items of the stream, in order, until the call settles. *)
Fixpoint feed (f : StartFrame) (items : list StreamItem)
    (s : State) (env : Env.t) : Async StartFrame * State * Env.t :=
  match items with
  | [] => (Awaiting f, s, env)
  | item :: rest =>
      match start_resume f item s env with
      | (Awaiting f', s', env') => feed f' rest s' env'
      | settled => settled
      end
  end.

Definition start_call (streaming : bool) (prompt : string)
    (items : list StreamItem) (s : State) (env : Env.t)
    : Async StartFrame * State * Env.t :=
  match start streaming prompt s env with
  | (Awaiting f, s', env') => feed f items s' env'
  | settled => settled
  end.

End Generation.

(** ** [useWorkflowRun], first version (lines 1-120 of the source file) *)

Module RunV1.
Import Proto Env Log.

Record State := {
  running : bool;
  events : list Event;
  runRes : option RunWorkflowResponse
}.

Definition initial : State :=
  {| running := false; events := []; runRes := None |}.

Definition setRunning (b : bool) (s : State) : State :=
  {| running := b; events := events s; runRes := runRes s |}.

Definition setEvents (l : list Event) (s : State) : State :=
  {| running := running s; events := l; runRes := runRes s |}.

Definition setRunRes (r : option RunWorkflowResponse) (s : State) : State :=
  {| running := running s; events := events s; runRes := r |}.

Definition append (k : Kind) (p : Payload) (s : State) (env : Env.t)
    : State * Env.t :=
  let '(l, env) := Log.append k p (events s) env in
  (setEvents l s, env).

(** [runById] has one [await] and no local that outlives it. *)
Definition Frame : Type := unit.

(** [runById(workflowId, workflowCodeId)] up to its [await]; [running]
    is the value the callback closed over. *)
Definition runById (running : bool) (workflowId : string)
    (workflowCodeId : option string) (s : State) (env : Env.t)
    : Async Frame * State * Env.t :=
  if running then (Settled (Fulfilled tt), s, env)
  else
    let s := setEvents [] s in
    let s := setRunRes None s in
    let s := setRunning true s in
    let '(s, env) :=
      append message_ (stage "run" (Some "start") None) s env in
    let env :=
      issue (runWorkflow workflowId
               (or_else (default "" workflowCodeId) "") None) env in
    (Awaiting tt, s, env).

(** [runById] resumed when [runWorkflow] settles. *)
Definition runById_resume (f : Frame) (p : Promise RunWorkflowResponse)
    (s : State) (env : Env.t) : Promise unit * State * Env.t :=
  match p with
  | Fulfilled res =>
      let s := setRunRes (Some res) s in
      let '(s, env) := append message_ (ran res) s env in
      let '(s, env) := append done_ (stage "run" None None) s env in
      (Fulfilled tt, setRunning false s, env)
  | Rejected e =>
      let '(s, env) := append error_ (thrown e) s env in
      (Fulfilled tt, setRunning false s, env)
  end.

(** [runByDefinition(workflow)]: deprecated, only logs an error. *)
Definition runByDefinition (_workflow : Workflow) (s : State)
    (env : Env.t) : Promise unit * State * Env.t :=
  let '(s, env) :=
    append error_
      (thrown (mkError "Error"
         ("Direct workflow definition execution is no longer supported. " +:+
          "Please save the workflow first and use runById instead.")))
      s env in
  (Fulfilled tt, s, env).

Definition clearEvents (s : State) : State := setEvents [] s.

End RunV1.

(** ** [useWorkflowRun], second version (lines 121-392 of the source file) *)

Module RunV2.
Import Proto Env Log WorkflowProgress.

Definition State : Type := RunV1.State.
Definition initial : State := RunV1.initial.
Definition running := RunV1.running.
Definition events := RunV1.events.
Definition runRes := RunV1.runRes.
Definition setRunning := RunV1.setRunning.
Definition setEvents := RunV1.setEvents.
Definition setRunRes := RunV1.setRunRes.
Definition append := RunV1.append.
Definition clearEvents := RunV1.clearEvents.

Definition getPluginFunctionIds (workflow : option Workflow)
    : list string :=
  match workflow with
  | None => []
  | Some w =>
      match latestCode w with
      | None => []
      | Some c => pluginFunctionIds c
      end
  end.

(** [workflow?.displayName || "Workflow"] *)
Definition workflowNameOf (workflow : option Workflow) : string :=
  or_else (default "" (displayName <$> workflow)) "Workflow".

(** The [steps.map] before [notifyWorkflowStart]: the first step is
    running since [Date.now()], which is read for index 0 only. *)
Definition mark_started (steps : list WorkflowProgressStep) (env : Env.t)
    : list WorkflowProgressStep * Env.t :=
  let '(t0, env) := now env in
  (imap (fun index step =>
           {| step_id := step_id step;
              step_functionId := step_functionId step;
              step_functionName := step_functionName step;
              step_status := match index with O => SRunning | _ => SPending end;
              step_startedAt := match index with O => Some t0 | _ => None end;
              step_completedAt := step_completedAt step |}) steps,
   env).

(** The [steps.map] before [notifyWorkflowComplete]: [Date.now()] is
    read once for every step. *)
Fixpoint mark_completed (steps : list WorkflowProgressStep) (env : Env.t)
    : list WorkflowProgressStep * Env.t :=
  match steps with
  | [] => ([], env)
  | step :: rest =>
      let '(t1, env) := now env in
      let '(rest, env) := mark_completed rest env in
      ({| step_id := step_id step;
          step_functionId := step_functionId step;
          step_functionName := step_functionName step;
          step_status := SCompleted;
          step_startedAt := step_startedAt step;
          step_completedAt := Some t1 |} :: rest, env)
  end.

Definition is_running (s : WorkflowProgressStep) : bool :=
  match step_status s with SRunning => true | _ => false end.

(** [steps.findIndex((s) => s.status === "running")]; [None] is -1. *)
Fixpoint findIndex_running (steps : list WorkflowProgressStep)
    : option nat :=
  match steps with
  | [] => None
  | s :: rest =>
      if is_running s then Some O else S <$> findIndex_running rest
  end.

Definition set_error (s : WorkflowProgressStep) : WorkflowProgressStep :=
  {| step_id := step_id s;
     step_functionId := step_functionId s;
     step_functionName := step_functionName s;
     step_status := SError;
     step_startedAt := step_startedAt s;
     step_completedAt := step_completedAt s |}.

(** The body of the two [catch] blocks; [workflowId] is the id given
    to [notifyWorkflowError]. *)
Definition catch_block (e : Error) (workflowId : string)
    (steps : list WorkflowProgressStep) (s : State) (env : Env.t)
    : Completion unit * State * Env.t :=
  let '(s, env) := append error_ (thrown e) s env in
  match steps with
  | [] => (Normal tt, s, env)
  | _ :: _ =>
      let currentIndex := findIndex_running steps in
      let steps :=
        match currentIndex with
        | Some i => alter set_error i steps
        | None => steps
        end in
      let '(c, env) :=
        on_host (notifyWorkflowError workflowId steps
                   (match currentIndex with
                    | Some i => Z.of_nat i
                    | None => 0
                    end)) env in
      (c, s, env)
  end.

(** A [try]/[catch] completion followed by the [finally] block. *)
Definition finally (r : Completion unit * State * Env.t)
    : Promise unit * State * Env.t :=
  let '(c, s, env) := r in
  (match c with Normal _ => Fulfilled tt | Throw e => Rejected e end,
   setRunning false s, env).

(** The locals of [runById] that live across its [await]. *)
Record Frame := {
  frame_workflowId : string;
  frame_steps : list WorkflowProgressStep
}.

(** [runById(workflowId, workflowCodeId, workflow)] up to its [await];
    [running] is the value the callback closed over. *)
Definition runById (running : bool) (workflowId : string)
    (workflowCodeId : option string) (workflow : option Workflow)
    (s : State) (env : Env.t) : Async Frame * State * Env.t :=
  if running then (Settled (Fulfilled tt), s, env)
  else
    let s := setEvents [] s in
    let s := setRunRes None s in
    let s := setRunning true s in
    let pluginFunctionIds := getPluginFunctionIds workflow in
    let steps := parseWorkflowSteps pluginFunctionIds in
    let workflowName := workflowNameOf workflow in
    let '(c, steps, env) :=
      match steps with
      | [] => (Normal tt, steps, env)
      | _ :: _ =>
          let '(steps, env) := mark_started steps env in
          let '(c, env) :=
            on_host (notifyWorkflowStart workflowId workflowName steps)
                    env in
          (c, steps, env)
      end in
    match c with
    | Throw e => (Settled (Rejected e), s, env)
    | Normal _ =>
        let '(s, env) :=
          append message_ (stage "run" (Some "start") None) s env in
        let env :=
          issue (runWorkflow workflowId
                   (or_else (default "" workflowCodeId) "") None) env in
        (Awaiting {| frame_workflowId := workflowId;
                     frame_steps := steps |}, s, env)
    end.

(** [runById] resumed when [runWorkflow] settles. *)
Definition runById_resume (f : Frame) (p : Promise RunWorkflowResponse)
    (s : State) (env : Env.t) : Promise unit * State * Env.t :=
  let workflowId := frame_workflowId f in
  let steps := frame_steps f in
  match p with
  | Fulfilled res =>
      let s := setRunRes (Some res) s in
      let '(s, env) := append message_ (ran res) s env in
      let '(s, env) := append done_ (stage "run" None None) s env in
      match steps with
      | [] => finally (Normal tt, s, env)
      | _ :: _ =>
          let '(steps, env) := mark_completed steps env in
          let '(c, env) :=
            on_host (notifyWorkflowComplete workflowId steps) env in
          match c with
          | Normal _ => finally (Normal tt, s, env)
          | Throw e => finally (catch_block e workflowId steps s env)
          end
      end
  | Rejected e => finally (catch_block e workflowId steps s env)
  end.

(** The locals of [runByDefinition] that live across its [await]s. *)
Inductive DefFrame :=
| DefSave (workflow : Workflow) (steps : list WorkflowProgressStep)
          (workflowName : string)
| DefRun (workflow : Workflow) (workflowId : string)
         (steps : list WorkflowProgressStep).

Definition settled (r : Promise unit * State * Env.t)
    : Async DefFrame * State * Env.t :=
  let '(p, s, env) := r in (Settled p, s, env).

(** [runByDefinition(workflow)] up to its first [await]. *)
Definition runByDefinition (running : bool) (workflow : Workflow)
    (s : State) (env : Env.t) : Async DefFrame * State * Env.t :=
  if running then (Settled (Fulfilled tt), s, env)
  else
    let s := setEvents [] s in
    let s := setRunRes None s in
    let s := setRunning true s in
    let pluginFunctionIds := getPluginFunctionIds (Some workflow) in
    let steps := parseWorkflowSteps pluginFunctionIds in
    let workflowName := or_else (displayName workflow) "Workflow" in
    let '(s, env) :=
      append message_ (stage "save" (Some "start") None) s env in
    let env := issue (updateWorkflow workflow None) env in
    (Awaiting (DefSave workflow steps workflowName), s, env).

(** [runByDefinition] resumed when [updateWorkflow] settles. *)
Definition runByDefinition_saved (workflow : Workflow)
    (steps : list WorkflowProgressStep) (workflowName : string)
    (p : Promise UpdateWorkflowResponse) (s : State) (env : Env.t)
    : Async DefFrame * State * Env.t :=
  let catch e steps s env :=
    settled (finally (catch_block e (Proto.workflowId workflow)
                        steps s env)) in
  let no_id := mkError "Error" "Failed to save workflow: no ID returned" in
  match p with
  | Rejected e => catch e steps s env
  | Fulfilled saveResponse =>
      match savedWorkflow saveResponse with
      | None => catch no_id steps s env
      | Some saved =>
          if bool_decide (Proto.workflowId saved = "")
          then catch no_id steps s env
          else
            let workflowId := Proto.workflowId saved in
            let workflowCodeId :=
              match head (workflowCode saved) with
              | Some c => or_else (codeId c) ""
              | None => ""
              end in
            let savedPluginFunctionIds :=
              getPluginFunctionIds (Some saved) in
            let steps :=
              match savedPluginFunctionIds with
              | [] => steps
              | _ :: _ => parseWorkflowSteps savedPluginFunctionIds
              end in
            let '(s, env) :=
              append message_
                (stage "save" (Some "done") (Some workflowId)) s env in
            let '(c, steps, env) :=
              match steps with
              | [] => (Normal tt, steps, env)
              | _ :: _ =>
                  let '(steps, env) := mark_started steps env in
                  let '(c, env) :=
                    on_host (notifyWorkflowStart workflowId workflowName
                               steps) env in
                  (c, steps, env)
              end in
            match c with
            | Throw e => catch e steps s env
            | Normal _ =>
                let '(s, env) :=
                  append message_ (stage "run" (Some "start") None)
                         s env in
                let env :=
                  issue (runWorkflow workflowId workflowCodeId None) env in
                (Awaiting (DefRun workflow workflowId steps), s, env)
            end
      end
  end.

(** [runByDefinition] resumed when [runWorkflow] settles. *)
Definition runByDefinition_ran (workflow : Workflow) (workflowId : string)
    (steps : list WorkflowProgressStep) (p : Promise RunWorkflowResponse)
    (s : State) (env : Env.t) : Promise unit * State * Env.t :=
  let catch e steps s env :=
    finally (catch_block e (Proto.workflowId workflow) steps s env) in
  match p with
  | Fulfilled res =>
      let s := setRunRes (Some res) s in
      let '(s, env) := append message_ (ran res) s env in
      let '(s, env) := append done_ (stage "run" None None) s env in
      match steps with
      | [] => finally (Normal tt, s, env)
      | _ :: _ =>
          let '(steps, env) := mark_completed steps env in
          let '(c, env) :=
            on_host (notifyWorkflowComplete workflowId steps) env in
          match c with
          | Normal _ => finally (Normal tt, s, env)
          | Throw e => catch e steps s env
          end
      end
  | Rejected e => catch e steps s env
  end.

End RunV2.

(** ** [fetchPlugins] of [PluginsPanel] (and of [PluginsPage], whose body
    is the same) *)

Module Plugins.
Import Proto Env.

Record State := {
  plugins : list PluginPackage;
  loading : bool;
  error : option string;
  searchQuery : string
}.

Definition initial : State :=
  {| plugins := []; loading := true; error := None; searchQuery := "" |}.

Definition setPlugins (l : list PluginPackage) (s : State) : State :=
  {| plugins := l; loading := loading s; error := error s;
     searchQuery := searchQuery s |}.

Definition setLoading (b : bool) (s : State) : State :=
  {| plugins := plugins s; loading := b; error := error s;
     searchQuery := searchQuery s |}.

Definition setError (e : option string) (s : State) : State :=
  {| plugins := plugins s; loading := loading s; error := e;
     searchQuery := searchQuery s |}.

(** [fetchPlugins()] up to its [await]. *)
Definition fetchPlugins (s : State) (env : Env.t)
    : Async unit * State * Env.t :=
  let s := setLoading true s in
  let s := setError None s in
  let env := issue (listPlugins 100 None) env in
  (Awaiting tt, s, env).

(** [fetchPlugins] resumed when [listPlugins] settles; [t] is the
    translation function of [useI18n]. *)
Definition fetchPlugins_resume (t : string -> string)
    (p : Promise ListPluginsResponse) (s : State) (env : Env.t)
    : Promise unit * State * Env.t :=
  match p with
  | Fulfilled response =>
      let s := setPlugins (listedPlugins response) s in
      (Fulfilled tt, setLoading false s, env)
  | Rejected e =>
      let env := console_error "Failed to fetch plugins:" e env in
      let s := setError (Some (t "plugins.fetchError")) s in
      (Fulfilled tt, setLoading false s, env)
  end.

End Plugins.

(** ** [WorkflowProgressDots] *)

Module ProgressDots.
Import Proto.

(** The members of [ACTION_TYPES] the component names. *)
Inductive ActionType :=
| NAVIGATION | INTERACTION | DATA_EXTRACTION
| CONTROL_FLOW | RETURN | COMPUTATION.

Inductive Icon :=
| LuArrowRight | LuMousePointer | LuDatabase
| LuGitBranch | LuCornerDownRight | LuCode.

Definition getActionIcon (type : ActionType) (size : Z) : Icon * Z :=
  match type with
  | NAVIGATION => (LuArrowRight, size)
  | INTERACTION => (LuMousePointer, size)
  | DATA_EXTRACTION => (LuDatabase, size)
  | CONTROL_FLOW => (LuGitBranch, size)
  | RETURN => (LuCornerDownRight, size)
  | COMPUTATION => (LuCode, size)
  end.

(** A string in a condition: [undefined] and the empty string are
    falsy. *)
Definition truthy (o : option string) : bool :=
  match o with
  | Some s => negb (bool_decide (s = ""))
  | None => false
  end.

(** One [React.Fragment] of the row: the step dot, its label unless
    [minimal], and whether a connector line follows. *)
Record StepDot := {
  dot_index : nat;
  dot_title : string;
  dot_icon : Icon * Z;
  dot_colorScheme : string;
  dot_isCompleted : bool;
  dot_isCurrent : bool;
  dot_clickable : bool;
  dot_label : option string;
  dot_connector : bool
}.

Inductive View :=
| NoSteps                       (* the placeholder text *)
| Row (dots : list StepDot).    (* the [HStack] *)

Record Props := {
  workflow : Workflow;
  currentStep : option Z;
  completedSteps : Z;
  onStepClick : bool;           (* whether a callback is given *)
  minimal : bool
}.

Section Component.
(** [./ast-utils], [./action-grouper] and [./constants] are not among
    the sources: the statement type, the parser, the grouping
    function and the colour table are parameters. *)
Variables Statement Importance : Type.

Record Action := {
  title : string;
  type : ActionType;
  importance : Importance
}.

Record ParseResult := {
  workflowBody : option (list Statement);
  parseError : option string
}.

Variable parseWorkflowCode : string -> ParseResult.
Variable groupStatementsIntoActions : list Statement -> list Action.
Variable getActionColor : ActionType -> Importance -> string.

(** [workflow.workflowCode[workflow.workflowCode.length - 1]?.code] *)
Definition latestCodeOf (w : Workflow) : option string :=
  code <$> latestCode w.

(** The body of the [useMemo]. *)
Definition actionsOf (latestCode : option string) : list Action :=
  if negb (truthy latestCode) then []
  else
    let r := parseWorkflowCode (default "" latestCode) in
    if truthy (parseError r) then []
    else match workflowBody r with
         | None => []
         | Some body => groupStatementsIntoActions body
         end.

Definition labelOf (title : string) : string :=
  if (8 <? String.length title)%nat
  then String.substring 0 7 title +:+ "…"
  else title.

Definition renderDot (props : Props) (count : nat) (index : nat)
    (action : Action) : StepDot :=
  {| dot_index := index;
     dot_title := title action;
     dot_icon := getActionIcon (type action)
                   (if minimal props then 10 else 12);
     dot_colorScheme := getActionColor (type action) (importance action);
     dot_isCompleted := Z.of_nat index <? completedSteps props;
     dot_isCurrent :=
       bool_decide (currentStep props = Some (Z.of_nat index));
     dot_clickable := onStepClick props;
     dot_label :=
       if minimal props then None else Some (labelOf (title action));
     dot_connector := Z.of_nat index <? Z.of_nat count - 1 |}.

Definition WorkflowProgressDots (props : Props) : View :=
  let actions := actionsOf (latestCodeOf (workflow props)) in
  match actions with
  | [] => NoSteps
  | _ :: _ => Row (imap (renderDot props (length actions)) actions)
  end.

End Component.

Arguments workflowBody {Statement} _.
Arguments parseError {Statement} _.
Arguments title {Importance} _.
Arguments type {Importance} _.
Arguments importance {Importance} _.

End ProgressDots.

(** ** [extractFunctionInfo] of [WorkflowFunctionList] *)

Module FunctionList.
Import Proto.

Record FunctionInfo := {
  info_functionId : string;
  info_functionName : string;
  info_description : string;
  info_permissionLevel : PermissionLevel;
  info_packageName : option string
}.

(** [n || 0] on an enum number *)
Definition or_zero (n : N) : N := if (n =? 0)%N then 0%N else n.

(** The [reduce] over [info.func.permissions]. *)
Definition maxLevel (perms : list Permission) : PermissionLevel :=
  foldl (fun max p =>
           if (max <? or_zero (permissionLevel p))%N
           then or_zero (permissionLevel p) else max)
        0%N perms.

(** The two nested loops filling [functionMap]. *)
Definition functionMapOf (packages : list PluginPackage)
    : gmap string (PluginFunction * PluginPackage) :=
  foldl (fun m pkg =>
           foldl (fun m func => <[functionId func := (func, pkg)]> m)
                 m (functions pkg))
        ∅ packages.

Section WithEnum.
(** The value [PermissionLevel.UNSPECIFIED] of the generated enum. *)
Variable UNSPECIFIED : PermissionLevel.

Definition resolve
    (functionMap : gmap string (PluginFunction * PluginPackage))
    (id : string) : FunctionInfo :=
  match functionMap !! id with
  | Some (func, pkg) =>
      {| info_functionId := id;
         info_functionName := functionName func;
         info_description := description func;
         info_permissionLevel := maxLevel (permissions func);
         info_packageName := Some (packageName pkg) |}
  | None =>
      {| info_functionId := id;
         info_functionName := replace_underscores id;
         info_description := "";
         info_permissionLevel := UNSPECIFIED;
         info_packageName := None |}
  end.

Definition extractFunctionInfo (workflow : Workflow)
    : list FunctionInfo :=
  match latestCode workflow with
  | None => []
  | Some latest =>
      let functionIds := pluginFunctionIds latest in
      let packages := pluginPackages latest in
      let functionMap := functionMapOf packages in
      resolve functionMap <$> functionIds
  end.

End WithEnum.

(** The words of the specification: the greatest level among the
    declared permissions, 0 when there is none. *)
Definition greatest_level (perms : list Permission) : N :=
  foldr N.max 0%N (permissionLevel <$> perms).

(** The id names a function of one of the packages. *)
Definition declared (packages : list PluginPackage) (id : string)
    (func : PluginFunction) (pkg : PluginPackage) : Prop :=
  pkg ∈ packages ∧ func ∈ functions pkg ∧ functionId func = id.

End FunctionList.

(** ** One [useWorkflowGeneration] instance driven by the event loop

    The inputs are the calls of the user interface and the settlements
    of the awaited promises, in the order the event loop runs them.  A
    call of [start] or [runLatest] goes to a callback some render made:
    the input carries the value of [streaming] or [latest] that callback
    closed over, which is the current one only when the render has seen
    every earlier state update.  [stop] reads [abortRef.current], which
    is always the current one. *)

Module GenerationLoop.
Import Proto Env Log Generation.

Inductive Call :=
| StartCall (f : StartFrame)
| RunLatestCall (f : RunLatestFrame).

Inductive Settlement :=
| StreamGives (item : StreamItem)
| SaveSettles (p : Promise UpdateWorkflowResponse)
| RunSettles (p : Promise RunWorkflowResponse).

Inductive Input :=
| ui_start (seen : bool) (prompt : string)
| ui_stop
| ui_clearEvents
| ui_runLatest (seen : option GenerateWorkflowResponse)
| resume (k : nat) (o : Settlement).   (* the k-th suspended call *)

Record World := {
  hook : State;
  env : Env.t;
  calls : list Call                    (* the suspended calls *)
}.

(** The suspended calls after the k-th one ran up to its next
    [await] or to its end. *)
Definition reschedule {F} (wrap : F -> Call) (k : nat) (a : Async F)
    (l : list Call) : list Call :=
  match a with
  | Awaiting f => <[k := wrap f]> l
  | Settled _ => delete k l
  end.

Definition spawn {F} (wrap : F -> Call) (a : Async F) (l : list Call)
    : list Call :=
  match a with
  | Awaiting f => l ++ [wrap f]
  | Settled _ => l
  end.

Definition step (w : World) (i : Input) : World :=
  match i with
  | ui_start seen prompt =>
      let '(a, s, e) := start seen prompt (hook w) (env w) in
      {| hook := s; env := e; calls := spawn StartCall a (calls w) |}
  | ui_stop =>
      {| hook := hook w; env := stop (hook w) (env w); calls := calls w |}
  | ui_clearEvents =>
      {| hook := clearEvents (hook w); env := env w; calls := calls w |}
  | ui_runLatest seen =>
      let '(a, s, e) := runLatest seen (hook w) (env w) in
      {| hook := s; env := e; calls := spawn RunLatestCall a (calls w) |}
  | resume k o =>
      match calls w !! k, o with
      | Some (StartCall f), StreamGives item =>
          let '(a, s, e) := start_resume f item (hook w) (env w) in
          {| hook := s; env := e;
             calls := reschedule StartCall k a (calls w) |}
      | Some (RunLatestCall AwaitSave), SaveSettles p =>
          let '(a, s, e) := runLatest_saved p (hook w) (env w) in
          {| hook := s; env := e;
             calls := reschedule RunLatestCall k a (calls w) |}
      | Some (RunLatestCall AwaitRun), RunSettles p =>
          let '(a, s, e) := runLatest_ran p (hook w) (env w) in
          {| hook := s; env := e;
             calls := reschedule RunLatestCall k a (calls w) |}
      | _, _ => w
      end
  end.

Definition run (w : World) (inputs : list Input) : World :=
  foldl step w inputs.

Definition boot (e : Env.t) : World :=
  {| hook := initial; env := e; calls := [] |}.

(** The suspended [start] calls: the open generation streams. *)
Definition open_streams (w : World) : list StartFrame :=
  omap (fun c => match c with
                 | StartCall f => Some f
                 | RunLatestCall _ => None
                 end) (calls w).

(** The call, when it is a [start], goes to a callback that closed
    over the value [streaming] has when the call is made. *)
Definition timely (w : World) (i : Input) : Prop :=
  match i with
  | ui_start seen _ => seen = streaming (hook w)
  | _ => True
  end.

(** Every [start] call of the trace is timely. *)
Fixpoint up_to_date (w : World) (inputs : list Input) : Prop :=
  match inputs with
  | [] => True
  | i :: rest => timely w i /\ up_to_date (step w i) rest
  end.

End GenerationLoop.

(** ** Sample inputs *)

Module Samples.
Import Proto WorkflowProgress Env.

Definition boom : Error := mkError "TypeError" "host failure".
Definition aborted_by_user : Error := mkError "AbortError" "aborted".
Definition unavailable : Error := mkError "ConnectError" "unavailable".

Definition bare_window : Host :=
  {| OSAutomotor := None; posted := []; unhandled := [] |}.

Definition window_with (f : HostFn) : Host :=
  {| OSAutomotor := Some {| sendWorkflowProgress := Some f |};
     posted := []; unhandled := [] |}.

Definition accepting : HostFn :=
  fun _ _ => HostReturns (Fulfilled {| success := true; error := None |}).
Definition rejecting : HostFn := fun _ _ => HostReturns (Rejected boom).
Definition throwing : HostFn := fun _ _ => HostThrows boom.

Definition env_with (h : Host) : Env.t :=
  {| clock := fun n => 1000 + Z.of_nat n; ticks := 0; issued := [];
     controllers := 0; aborted := ∅; host := h; console := [] |}.

Definition mail_function : PluginFunction :=
  {| functionId := "mail.send"; functionName := "Send mail";
     description := "Sends a mail";
     permissions := [ {| permissionLevel := 1%N |};
                      {| permissionLevel := 3%N |};
                      {| permissionLevel := 2%N |} ] |}.

Definition mail_package : PluginPackage :=
  {| packageId := "pkg.mail"; packageName := "Mail";
     functions := [mail_function] |}.

Definition mail_code : WorkflowCode :=
  {| codeId := "code-1"; code := "workflow()";
     pluginFunctionIds := ["mail.send"; "read_file"];
     pluginPackages := [mail_package] |}.

Definition mail_workflow : Workflow :=
  {| workflowId := "wf-1"; displayName := "Mail"; workflowCode := [mail_code] |}.

Definition hello : WorkflowProgressMessage :=
  {| msg_type := workflow_progress_update; msg_workflowId := "wf-1";
     msg_workflowName := None; msg_steps := None;
     msg_currentStepIndex := Some 0; msg_status := Some MRunning |}.

(** A host function that takes the first message and throws on every
    later one. *)
Definition fickle : HostFn :=
  fun n _ =>
    match n with
    | O => HostReturns (Fulfilled {| success := true; error := None |})
    | S _ => HostThrows boom
    end.

(** A stand-in for the parser and the grouping of the progress dots:
    statements are numbers, "bad" does not parse, "none" has no
    workflow body. *)
Definition toy_parse (code : string) : ProgressDots.ParseResult nat :=
  if bool_decide (code = "bad")
  then {| ProgressDots.workflowBody := None;
          ProgressDots.parseError := Some "unexpected token" |}
  else if bool_decide (code = "none")
  then {| ProgressDots.workflowBody := None;
          ProgressDots.parseError := None |}
  else {| ProgressDots.workflowBody := Some [1%nat; 2%nat];
          ProgressDots.parseError := None |}.

Definition toy_group (body : list nat) : list (ProgressDots.Action unit) :=
  (fun n => {| ProgressDots.title := "step " +:+ of_index n;
               ProgressDots.type := ProgressDots.NAVIGATION;
               ProgressDots.importance := tt |}) <$> body.

Definition toy_color (_ : ProgressDots.ActionType) (_ : unit) : string :=
  "blue".

Definition mail_props : ProgressDots.Props :=
  {| ProgressDots.workflow := mail_workflow;
     ProgressDots.currentStep := Some 1;
     ProgressDots.completedSteps := 1;
     ProgressDots.onStepClick := false;
     ProgressDots.minimal := false |}.

Definition quiet : Env.t := env_with bare_window.

Definition draft : GenerateWorkflowResponse :=
  {| workflowDefinition := Some mail_workflow |}.

(** A generation is started and its stream has given one message. *)
Definition generating : GenerationLoop.World :=
  GenerationLoop.run (GenerationLoop.boot quiet)
    [GenerationLoop.ui_start false "send a mail";
     GenerationLoop.resume 0
       (GenerationLoop.StreamGives (Generation.Yield draft))].

End Samples.

(** ** Vocabulary of the statements *)

Module Words.
Import Proto WorkflowProgress Env Log.

(** A notifier call that is one [sendProgressMessage] of a message of
    the given shape; on a window that has the host function exactly
    that message is handed to the host. *)
Definition posts_one (before : Host) (r : Completion unit * Host)
    (shape : WorkflowProgressMessage -> Prop) : Prop :=
  exists m,
    shape m /\
    r = sendProgressMessage m before /\
    (forall send, hostFn before = Some send ->
       posted (r.2) = posted before ++ [m]).

(** The host function never throws before handing back its promise. *)
Definition returns_promises (h : Host) : Prop :=
  forall send n m e, hostFn h = Some send -> send n m <> HostThrows e.

(** [env'] has the requests of [env] followed by [new]. *)
Definition issues (env env' : Env.t) (new : list Request) : Prop :=
  issued env' = issued env ++ new.


(** Between [env] and [env'] nothing happened but clock reads and
    calls of the host function. *)
Definition calm (env env' : Env.t) : Prop :=
  issued env' = issued env /\ aborted env' = aborted env /\
  controllers env' = controllers env /\ console env' = console env /\
  hostFn (host env') = hostFn (host env).

(** The step dots a view shows. *)
Definition dots_of (v : ProgressDots.View) : list ProgressDots.StepDot :=
  match v with
  | ProgressDots.NoSteps => []
  | ProgressDots.Row dots => dots
  end.

(** The events the run hooks append. *)
Definition run_started (time : Z) : Event :=
  {| t := time; kind := message_;
     payload := Some (stage "run" (Some "start") None) |}.

Definition run_result (time : Z) (res : RunWorkflowResponse) : Event :=
  {| t := time; kind := message_; payload := Some (ran res) |}.

Definition run_done (time : Z) : Event :=
  {| t := time; kind := done_; payload := Some (stage "run" None None) |}.

Definition failed (time : Z) (e : Error) : Event :=
  {| t := time; kind := error_; payload := Some (thrown e) |}.

(** What holds of every world the event loop reaches by a trace whose
    [start] calls are up to date: the signals handed out belong to
    controllers that exist; at most one stream is open; [streaming]
    tells whether one is; and [abortRef] holds its controller, to which
    exactly one request listens. *)
Record consistent (w : GenerationLoop.World) : Prop := {
  signals_exist :
    Forall (fun r => forall n, signal_of r = Some n ->
              (n < controllers (GenerationLoop.env w))%nat)
           (issued (GenerationLoop.env w));
  one_stream :
    match GenerationLoop.open_streams w with
    | [] =>
        Generation.streaming (GenerationLoop.hook w) = false /\
        Generation.abortRef (GenerationLoop.hook w) = None
    | [f] =>
        Generation.streaming (GenerationLoop.hook w) = true /\
        Generation.abortRef (GenerationLoop.hook w)
          = Some (Generation.ac f) /\
        exists prompt,
          filter (fun r => signal_of r = Some (Generation.ac f))
                 (issued (GenerationLoop.env w))
          = [generateWorkflow prompt (Some (Generation.ac f))]
    | _ => False
    end
}.

(** The progress bridge cannot throw in a call that shows [steps]:
    there is nothing to show, or the host function, if there is one,
    hands back a promise. *)
Definition bridge_safe (steps : list WorkflowProgressStep) (h : Host)
    : Prop :=
  steps = [] \/ returns_promises h.


(** What holds of every world the event loop reaches at all: the
    controller in [abortRef], if any, is that of an open stream. *)
Definition ref_is_open (w : GenerationLoop.World) : Prop :=
  forall n,
    Generation.abortRef (GenerationLoop.hook w) = Some n ->
    exists f, f ∈ GenerationLoop.open_streams w /\ Generation.ac f = n.

End Words.

(** ** More of JavaScript: case, search, numbers and slices *)

Module JsMore.

(** [String.prototype.toLowerCase] on one code unit below 256: A-Z and
    the capital letters of Latin-1 (all of 192-222 but the
    multiplication sign 215) move up by 32. *)
Definition lower_unit (c : ascii) : ascii :=
  let n := N_of_ascii c in
  if ((65 <=? n) && (n <=? 90)
      || (192 <=? n) && (n <=? 222) && negb (n =? 215))%N
  then ascii_of_N (n + 32) else c.

Fixpoint toLowerCase (s : string) : string :=
  match s with
  | EmptyString => EmptyString
  | String c s' => String (lower_unit c) (toLowerCase s')
  end.

(** [s.startsWith(q)] *)
Fixpoint startsWith (s q : string) : bool :=
  match q, s with
  | EmptyString, _ => true
  | String _ _, EmptyString => false
  | String c q', String d s' => Ascii.eqb c d && startsWith s' q'
  end.

(** [s.includes(q)] *)
Fixpoint includes (s q : string) : bool :=
  startsWith s q ||
  match s with
  | EmptyString => false
  | String _ s' => includes s' q
  end.

Definition digit_of (c : ascii) : option Z :=
  let n := N_of_ascii c in
  if ((48 <=? n) && (n <=? 57))%N then Some (Z.of_N n - 48) else None.

(** The value of the longest run of decimal digits at the head of [s],
    continuing from [acc]. *)
Fixpoint digits_from (acc : Z) (s : string) : Z :=
  match s with
  | EmptyString => acc
  | String c s' =>
      match digit_of c with
      | Some d => digits_from (acc * 10 + d) s'
      | None => acc
      end
  end.

Definition unsigned (s : string) : option Z :=
  match s with
  | EmptyString => None
  | String c _ =>
      match digit_of c with
      | Some _ => Some (digits_from 0 s)
      | None => None
      end
  end.

(** [parseInt(s, 10)]; [None] is [NaN].  Leading white space, one
    optional sign, then the longest run of digits. *)
Definition parseInt (s : string) : option Z :=
  match trim_start s with
  | String c rest =>
      if Ascii.eqb c "-"%char then Z.opp <$> unsigned rest
      else if Ascii.eqb c "+"%char then unsigned rest
      else unsigned (String c rest)
  | EmptyString => None
  end.

(** [n.toString()] for an integer [n] *)
Definition toString (n : Z) : string := pretty n.

(** [a.slice(start, end)]: a negative index counts from the end, and
    both are clamped to the array. *)
Definition slice {A} (l : list A) (start end_ : Z) : list A :=
  let len := Z.of_nat (length l) in
  let clamp k := if k <? 0 then Z.max (len + k) 0 else Z.min k len in
  let from := clamp start in
  let to := clamp end_ in
  take (Z.to_nat (to - from)) (drop (Z.to_nat from) l).

End JsMore.

(** ** [mock-server/handlers/plugin-handler.ts] *)

Module MockServer.
Import Proto JsMore.

Record ListPluginsRequest := { pageSize : Z; pageToken : string }.

Record ListPluginsResponse := {
  plugins : list PluginPackage;
  nextPageToken : string
}.

(** [pluginHandler.listPlugins(request)]; [getPlugins] is the fixture of
    [../data/mock-data], which is not among the sources.  The handler is
    [async] and has no [await]: its promise is fulfilled with this
    response. *)
Definition listPlugins (getPlugins : list PluginPackage)
    (request : ListPluginsRequest) : ListPluginsResponse :=
  let plugins := getPlugins in
  let pageSize := if pageSize request =? 0 then 10 else pageSize request in
  let startIndex :=
    if bool_decide (pageToken request = "") then Some 0
    else parseInt (pageToken request) in
  match startIndex with
  | Some startIndex =>
      {| plugins := slice plugins startIndex (startIndex + pageSize);
         nextPageToken :=
           if startIndex + pageSize <? Z.of_nat (length plugins)
           then toString (startIndex + pageSize) else "" |}
  | None =>
      (* [NaN]: [slice(NaN, NaN)] is [slice(0, 0)], and [NaN < n] is false *)
      {| plugins := slice plugins 0 0; nextPageToken := "" |}
  end.

(** A client that follows the page tokens: the pages it receives, at
    most [fuel] of them. *)
Fixpoint follow (getPlugins : list PluginPackage) (pageSize : Z)
    (fuel : nat) (token : string) : list (list PluginPackage) :=
  match fuel with
  | O => []
  | S fuel =>
      let r := listPlugins getPlugins
                 {| pageSize := pageSize; pageToken := token |} in
      plugins r ::
      (if bool_decide (nextPageToken r = "") then []
       else follow getPlugins pageSize fuel (nextPageToken r))
  end.

End MockServer.

(** ** The search box and the body of [PluginsPanel] *)

Module PluginsView.
Import Proto JsMore.

Definition setSearchQuery (q : string) (s : Plugins.State) : Plugins.State :=
  {| Plugins.plugins := Plugins.plugins s;
     Plugins.loading := Plugins.loading s;
     Plugins.error := Plugins.error s;
     Plugins.searchQuery := q |}.

Inductive PanelView :=
| Spinner (text : string)
| FetchError (title description : string)
| NoPlugins (title description : string)
| PluginItems (items : list PluginPackage).

Section Panel.
(** The [description] of a [PluginPackage], a field the record above
    does not carry. *)
Variable descriptionOf : PluginPackage -> string.

(** The callback of [plugins.filter] *)
Definition matches (query : string) (p : PluginPackage) : bool :=
  includes (toLowerCase (packageName p)) query
  || includes (toLowerCase (packageId p)) query
  || includes (toLowerCase (descriptionOf p)) query.

(** The body of the [useMemo] behind [filteredPlugins] *)
Definition filteredPlugins (plugins : list PluginPackage)
    (searchQuery : string) : list PluginPackage :=
  if bool_decide (trim searchQuery = "") then plugins
  else
    let query := toLowerCase searchQuery in
    List.filter (matches query) plugins.

(** The body of the panel; [t] is the translation function. *)
Definition PluginsPanel (t : string -> string) (s : Plugins.State)
    : PanelView :=
  if Plugins.loading s then Spinner (t "common.loading")
  else if ProgressDots.truthy (Plugins.error s)
  then FetchError (t "plugins.fetchErrorTitle")
                  (default "" (Plugins.error s))
  else
    match filteredPlugins (Plugins.plugins s) (Plugins.searchQuery s) with
    | [] => NoPlugins (t "plugins.emptyTitle") (t "plugins.emptyDescription")
    | items => PluginItems items
    end.

End Panel.

(** The function badges of a [PluginCard]: the names of the first three
    functions and, when there are more, the number of the others. *)
Definition functionBadges (plugin : PluginPackage)
    : list string * option Z :=
  (functionName <$> slice (functions plugin) 0 3,
   if 3 <? Z.of_nat (length (functions plugin))
   then Some (Z.of_nat (length (functions plugin)) - 3) else None).

End PluginsView.

(** ** The panel talking to the mock service *)

Module Wire.
Import Proto.

(** The mock service answering a request of the generated client; it
    implements [listPlugins] only.  The client sends no page token. *)
Definition serve (getPlugins : list PluginPackage) (r : Env.Request)
    : option (Promise Proto.ListPluginsResponse) :=
  match r with
  | Env.listPlugins pageSize _ =>
      let response :=
        MockServer.listPlugins getPlugins
          {| MockServer.pageSize := pageSize; MockServer.pageToken := "" |} in
      Some (Fulfilled {| listedPlugins := MockServer.plugins response |})
  | _ => None
  end.

(** One [fetchPlugins()] against the mock service. *)
Definition fetch_from_mock (getPlugins : list PluginPackage)
    (t : string -> string) (s : Plugins.State) (env : Env.t)
    : Promise unit * Plugins.State * Env.t :=
  let '(_, s, env) := Plugins.fetchPlugins s env in
  match last (Env.issued env) ≫= serve getPlugins with
  | Some p => Plugins.fetchPlugins_resume t p s env
  | None => (Fulfilled tt, s, env)
  end.

End Wire.

(** ** The body of [WorkflowFunctionList] *)

Module FunctionListView.
Import Proto JsMore FunctionList.

Inductive Icon :=
| LuMail | LuMessageSquare | LuFileText | LuGlobe
| LuDatabase | LuTerminal | LuZap.

Definition getFunctionIcon (functionId : string) (size : Z) : Icon * Z :=
  let id := toLowerCase functionId in
  if includes id "email" || includes id "mail" then (LuMail, size)
  else if includes id "slack" || includes id "message"
          || includes id "notify" then (LuMessageSquare, size)
  else if includes id "file" || includes id "read"
          || includes id "write" then (LuFileText, size)
  else if includes id "fetch" || includes id "http"
          || includes id "request" then (LuGlobe, size)
  else if includes id "query" || includes id "database"
          || includes id "sql" then (LuDatabase, size)
  else if includes id "exec" || includes id "shell"
          || includes id "command" then (LuTerminal, size)
  else (LuZap, size).

(** A tooltip-wrapped icon of the compact row. *)
Record CompactIcon := {
  compact_key : string;
  compact_name : string;
  compact_description : option string;
  compact_colorScheme : string;
  compact_icon : Icon * Z;
  compact_warning : bool
}.

(** A card of the grid. *)
Record Card := {
  card_key : string;
  card_number : Z;
  card_name : string;
  card_package : option string;
  card_description : string;
  card_risk : string;
  card_colorScheme : string;
  card_highRisk : bool;
  card_icon : Icon * Z;
  card_connector : bool
}.

Inductive ListView :=
| NoFunctions
| CompactRow (icons : list CompactIcon)
| Grid (cards : list Card).

Section Levels.
(** The values of the generated enum [PermissionLevel]. *)
Variables UNSPECIFIED MEDIUM HIGH CRITICAL : PermissionLevel.

Definition getLevelColor (level : PermissionLevel) : string :=
  if (level =? CRITICAL)%N then "red"
  else if (level =? HIGH)%N then "orange"
  else if (level =? MEDIUM)%N then "yellow"
  else "gray".

Definition getLevelLabel (level : PermissionLevel) : string :=
  if (level =? CRITICAL)%N then "CRITICAL"
  else if (level =? HIGH)%N then "HIGH"
  else if (level =? MEDIUM)%N then "MEDIUM"
  else "UNKNOWN".

Definition isHighRisk (level : PermissionLevel) : bool :=
  ((level =? HIGH) || (level =? CRITICAL))%N.

Definition compactIcon (func : FunctionInfo) : CompactIcon :=
  {| compact_key := info_functionId func;
     compact_name := info_functionName func;
     compact_description :=
       if bool_decide (info_description func = "") then None
       else Some (info_description func);
     compact_colorScheme := getLevelColor (info_permissionLevel func);
     compact_icon := getFunctionIcon (info_functionId func) 12;
     compact_warning := isHighRisk (info_permissionLevel func) |}.

Definition card (count : nat) (index : nat) (func : FunctionInfo) : Card :=
  {| card_key := info_functionId func;
     card_number := Z.of_nat index + 1;
     card_name := info_functionName func;
     card_package :=
       match info_packageName func with
       | Some n => if bool_decide (n = "") then None else Some n
       | None => None
       end;
     card_description := or_else (info_description func) "説明なし";
     card_risk := getLevelLabel (info_permissionLevel func);
     card_colorScheme := getLevelColor (info_permissionLevel func);
     card_highRisk := isHighRisk (info_permissionLevel func);
     card_icon := getFunctionIcon (info_functionId func) 16;
     card_connector :=
       negb (Z.of_nat index =? Z.of_nat count - 1) |}.

Definition WorkflowFunctionList (workflow : Workflow) (compact : bool)
    : ListView :=
  let functions := extractFunctionInfo UNSPECIFIED workflow in
  match functions with
  | [] => NoFunctions
  | _ :: _ =>
      if compact then CompactRow (compactIcon <$> functions)
      else Grid (imap (card (length functions)) functions)
  end.

End Levels.

End FunctionListView.

(** ** [SideNav] *)

Module SideNav.

(** An entry of the route registry, which is not among the sources, as
    far as [SideNav] reads it; the icon is a token. *)
Record Route := {
  key : string;
  path : string;
  label : string;
  icon : nat
}.

Inductive Entry :=
| NavItem (key to label : string) (icon : nat)
| ExternalNavItem (key href label : string).

(** The [routes.flatMap] of [SideNav]; [routes] is [getRoutes(t)]. *)
Definition entries (t : string -> string) (routes : list Route)
    : list Entry :=
  routes ≫= (fun r =>
    let navItem := NavItem (key r) (path r) (label r) (icon r) in
    if bool_decide (key r = "plugins")
    then [navItem;
          ExternalNavItem "store" "http://localhost:5173" (t "nav.store")]
    else [navItem]).

End SideNav.

(** ** Whole calls of the run and generation operations

    An operation run from its invocation to its end, the awaited
    promises settling as given and nothing else happening in
    between. *)

Module Calls.
Import Proto Env Log WorkflowProgress.

Definition runLatest (latest : option GenerateWorkflowResponse)
    (saved : Promise UpdateWorkflowResponse)
    (ran : Promise RunWorkflowResponse)
    (s : Generation.State) (env : Env.t)
    : Async Generation.RunLatestFrame * Generation.State * Env.t :=
  match Generation.runLatest latest s env with
  | (Awaiting _, s, env) =>
      match Generation.runLatest_saved saved s env with
      | (Awaiting _, s, env) => Generation.runLatest_ran ran s env
      | settled => settled
      end
  | settled => settled
  end.

Definition runById (running : bool) (workflowId : string)
    (workflowCodeId : option string) (workflow : option Workflow)
    (ran : Promise RunWorkflowResponse) (s : RunV2.State) (env : Env.t)
    : Promise unit * RunV2.State * Env.t :=
  match RunV2.runById running workflowId workflowCodeId workflow s env with
  | (Awaiting f, s, env) => RunV2.runById_resume f ran s env
  | (Settled p, s, env) => (p, s, env)
  end.

Definition runByDefinition (running : bool) (workflow : Workflow)
    (saved : Promise UpdateWorkflowResponse)
    (ran : Promise RunWorkflowResponse) (s : RunV2.State) (env : Env.t)
    : Promise unit * RunV2.State * Env.t :=
  match RunV2.runByDefinition running workflow s env with
  | (Awaiting (RunV2.DefSave wf steps name), s, env) =>
      match RunV2.runByDefinition_saved wf steps name saved s env with
      | (Awaiting (RunV2.DefRun wf workflowId steps), s, env) =>
          RunV2.runByDefinition_ran wf workflowId steps ran s env
      | (Awaiting (RunV2.DefSave _ _ _), s, env) =>
          (Fulfilled tt, s, env)         (* not reached *)
      | (Settled p, s, env) => (p, s, env)
      end
  | (Awaiting (RunV2.DefRun _ _ _), s, env) =>
      (Fulfilled tt, s, env)             (* not reached *)
  | (Settled p, s, env) => (p, s, env)
  end.

End Calls.

(** ** More vocabulary *)

Module MoreWords.
Import Proto Env Log WorkflowProgress.

(** A string of white space only: what [trim] empties. *)
Fixpoint all_ws (s : string) : bool :=
  match s with
  | EmptyString => true
  | String c s' => is_ws c && all_ws s'
  end.

(** The event [start] appends when its stream closes with [item]:
    none for an error named "AbortError". *)
Definition closing_event (item : Generation.StreamItem)
    : option (Kind * Payload) :=
  match item with
  | Generation.Yield _ => None
  | Generation.EndOfStream => Some (done_, stage "generate" None None)
  | Generation.StreamThrows e =>
      if bool_decide (name e = "AbortError") then None
      else Some (error_, thrown e)
  end.

(** The messages the host received between two environments. *)
Definition posted_between (env env' : Env.t)
    (msgs : list WorkflowProgressMessage) : Prop :=
  posted (host env') = posted (host env) ++ msgs.

(** The steps and the index [catch_block] hands to
    [notifyWorkflowError]: the running step, if there is one, is marked
    as failed. *)
Definition failed_steps (steps : list WorkflowProgressStep)
    : list WorkflowProgressStep * Z :=
  match RunV2.findIndex_running steps with
  | Some i => (alter RunV2.set_error i steps, Z.of_nat i)
  | None => (steps, 0)
  end.

(** [!saveResponse.workflow?.id] once [updateWorkflow] has settled, or
    its rejection: the save gave no workflow id. *)
Definition no_saved_id (saved : Promise UpdateWorkflowResponse) : bool :=
  match saved with
  | Rejected _ => true
  | Fulfilled r =>
      match savedWorkflow r with
      | None => true
      | Some w => bool_decide (Proto.workflowId w = "")
      end
  end.

(** The function ids [runByDefinition] shows once the workflow is
    saved: those of the saved workflow, or of the definition when the
    saved workflow lists none. *)
Definition shown_ids (workflow saved : Workflow) : list string :=
  match RunV2.getPluginFunctionIds (Some saved) with
  | [] => RunV2.getPluginFunctionIds (Some workflow)
  | ids => ids
  end.

(** [saveResponse.workflow.workflowCode?.[0]?.id || ""] *)
Definition first_code_id (saved : Workflow) : string :=
  match head (workflowCode saved) with
  | Some c => or_else (codeId c) ""
  | None => ""
  end.

(** The workflow a settled [updateWorkflow] gave, when it has an id:
    the complement of [no_saved_id]. *)
Definition saved_of (saved : Promise UpdateWorkflowResponse)
    : option Workflow :=
  match saved with
  | Rejected _ => None
  | Fulfilled r =>
      match savedWorkflow r with
      | None => None
      | Some w =>
          if bool_decide (Proto.workflowId w = "") then None else Some w
      end
  end.

(** The key of an internal navigation entry. *)
Definition nav_key (e : SideNav.Entry) : option string :=
  match e with
  | SideNav.NavItem k _ _ _ => Some k
  | SideNav.ExternalNavItem _ _ _ => None
  end.

(** The steps a message carries. *)
Definition steps_of (m : WorkflowProgressMessage)
    : list WorkflowProgressStep :=
  default [] (msg_steps m).

End MoreWords.

(** ** More sample values *)

Module MoreSamples.
Import Proto Samples.

(** A second declaration of "mail.send", in another package. *)
Definition post_function : PluginFunction :=
  {| functionId := "mail.send"; functionName := "Post";
     description := ""; permissions := [] |}.

Definition post_package : PluginPackage :=
  {| packageId := "pkg.post"; packageName := "Post";
     functions := [post_function] |}.

Definition twice_code : WorkflowCode :=
  {| codeId := "code-2"; code := "workflow()";
     pluginFunctionIds := ["mail.send"];
     pluginPackages := [mail_package; post_package] |}.

Definition twice_workflow : Workflow :=
  {| workflowId := "wf-2"; displayName := "Twice";
     workflowCode := [twice_code] |}.

Definition some_routes : list SideNav.Route :=
  [ {| SideNav.key := "home"; SideNav.path := "/";
       SideNav.label := "Home"; SideNav.icon := 0 |};
    {| SideNav.key := "plugins"; SideNav.path := "/plugins";
       SideNav.label := "Plugins"; SideNav.icon := 1 |};
    {| SideNav.key := "settings"; SideNav.path := "/settings";
       SideNav.label := "Settings"; SideNav.icon := 2 |} ].

End MoreSamples.

(** ** The words of the claims on strings *)

Module SpecWords.

(** The digit a character stands for. *)
Definition digit_value (c : ascii) : option N :=
  let n := N_of_ascii c in
  if ((48 <=? n) && (n <=? 57))%N then Some (n - 48)%N else None.

(** The number a string of decimal digits stands for, continuing from
    [acc]; [None] when a character is no digit. *)
Fixpoint numeral_from (acc : N) (s : string) : option N :=
  match s with
  | EmptyString => Some acc
  | String c s' =>
      match digit_value c with
      | Some d => numeral_from (10 * acc + d) s'
      | None => None
      end
  end.

(** [s] is the decimal numeral of [n]: digits only, at least one, and
    no leading zero but in "0" itself. *)
Definition numeral_of (n : nat) (s : string) : Prop :=
  numeral_from 0 s = Some (N.of_nat n) /\
  match s with
  | EmptyString => False
  | String c rest => c = "0"%char -> rest = EmptyString
  end.

(** [name] is [id] with every underscore replaced by a space: the
    same length, a space wherever [id] has an underscore and the
    character of [id] everywhere else. *)
Definition spaced (id name : string) : Prop :=
  String.length name = String.length id /\
  forall k,
    String.get k name
    = (fun c => if Ascii.eqb c "_"%char then " "%char else c)
        <$> String.get k id.

End SpecWords.

(** * Properties *)

(** ** Strings *)

Section StringFacts.
Import WorkflowProgress.

Lemma split_dot_no_dot (s : string) :
  has_dot s = false -> split_dot s = [s].
Proof.
  induction s as [|c s IH]; simpl; [done|].
  destruct (Ascii.eqb c "."%char); simpl; [done|].
  intros H. by rewrite (IH H).
Qed.

Lemma split_dot_with_dot (s : string) :
  has_dot s = true ->
  exists piece next rest, split_dot s = piece :: next :: rest.
Proof.
  induction s as [|c s IH]; simpl; [done|].
  destruct (Ascii.eqb c "."%char); simpl.
  - intros _. destruct (has_dot s) eqn:Hd.
    + destruct (IH eq_refl) as (p & n & r & ->). eauto.
    + rewrite (split_dot_no_dot s Hd). eauto.
  - intros H. destruct (IH H) as (p & n & r & ->). eauto.
Qed.

Lemma pop_split_dot (s : string) :
  pop (split_dot s) = after_last_dot s.
Proof.
  induction s as [|c s IH]; [done|].
  unfold pop in *. simpl.
  destruct (has_dot s) eqn:Hd.
  - destruct (split_dot_with_dot s Hd) as (p & n & r & Hs).
    rewrite Hs in *.
    destruct (Ascii.eqb c "."%char); rewrite <- IH; done.
  - rewrite (split_dot_no_dot s Hd).
    destruct (Ascii.eqb c "."%char); done.
Qed.

(** [after_last_dot] is what its name says. *)
Lemma after_last_dot_no_dot (s : string) :
  has_dot s = false -> after_last_dot s = s.
Proof.
  destruct s as [|c s]; simpl; [done|].
  destruct (Ascii.eqb c "."%char); simpl; [done|].
  by intros ->.
Qed.

Lemma has_dot_app (s1 s2 : string) :
  has_dot (s1 +:+ s2) = has_dot s1 || has_dot s2.
Proof.
  induction s1 as [|c s1 IH]; [done|].
  change (has_dot (String c (s1 +:+ s2))
          = has_dot (String c s1) || has_dot s2).
  simpl. rewrite IH. by destruct (Ascii.eqb c "."%char).
Qed.

Lemma after_last_dot_suffix (pre suf : string) :
  has_dot suf = false ->
  after_last_dot (pre +:+ "." +:+ suf) = suf.
Proof.
  intros Hs. induction pre as [|c pre IH].
  - change (after_last_dot (String "."%char suf) = suf).
    simpl. by rewrite Hs.
  - change (after_last_dot (String c (pre +:+ "." +:+ suf)) = suf).
    simpl. rewrite has_dot_app.
    change (has_dot ("." +:+ suf)) with (true || has_dot suf).
    rewrite orb_true_r. exact IH.
Qed.

End StringFacts.

Example trim_blank : trim "  " = "".
Proof. reflexivity. Qed.

Example trim_text : trim " a b  " = "a b".
Proof. reflexivity. Qed.

Example split_dot_ex : split_dot "a.b.c" = ["a"; "b"; "c"].
Proof. reflexivity. Qed.

Example split_dot_trailing : split_dot "a." = ["a"; ""].
Proof. reflexivity. Qed.

Example of_index_ex : of_index 12 = "12".
Proof. reflexivity. Qed.

(** ** Decimal numerals and underscores *)

Module SpecWordsFacts.
Import SpecWords.

Lemma digit_value_pretty_char (d : N) :
  (d < 10)%N -> digit_value (pretty_N_char d) = Some d.
Proof.
  intros H. rewrite <- (N2Nat.id d).
  assert (N.to_nat d < 10)%nat as Hn by lia.
  destruct (N.to_nat d) as [|[|[|[|[|[|[|[|[|[|n]]]]]]]]]];
    try reflexivity.
  lia.
Qed.

Lemma pretty_char_nonzero (d : N) :
  (0 < d < 10)%N -> pretty_N_char d <> "0"%char.
Proof.
  intros H. rewrite <- (N2Nat.id d).
  assert (0 < N.to_nat d < 10)%nat as Hn by lia.
  destruct (N.to_nat d) as [|[|[|[|[|[|[|[|[|[|n]]]]]]]]]];
    try discriminate; lia.
Qed.

(** Reading back the digits [pretty] writes. *)
Lemma numeral_from_pretty_go (x : N) (s : string) :
  numeral_from 0 (pretty_N_go x s) = numeral_from x s.
Proof.
  revert s.
  induction (N.lt_wf_0 x) as [x _ IH]; intros s.
  destruct (decide (0 < x)%N) as [Hx|Hx].
  - rewrite pretty_N_go_step by done.
    rewrite IH by (apply N.div_lt; lia).
    simpl. rewrite digit_value_pretty_char by (apply N.mod_lt; lia).
    f_equal. pose proof (N.div_mod x 10). lia.
  - assert (x = 0%N) as -> by lia. done.
Qed.

(** The first digit [pretty] writes for a positive number is not 0. *)
Lemma pretty_go_leading (x : N) (s : string) :
  (0 < x)%N ->
  exists c rest, pretty_N_go x s = String c rest /\ c <> "0"%char.
Proof.
  revert s. induction (N.lt_wf_0 x) as [x _ IH]; intros s Hx.
  rewrite pretty_N_go_step by done.
  destruct (N.eq_0_gt_0_cases (x `div` 10)) as [Hq|Hq].
  - rewrite Hq, pretty_N_go_0. eexists _, _. split; [done|].
    apply pretty_char_nonzero.
    pose proof (N.div_mod x 10). pose proof (N.mod_lt x 10). lia.
  - apply IH; [apply N.div_lt; lia|done].
Qed.

Lemma of_index_numeral (n : nat) : numeral_of n (of_index n).
Proof.
  unfold numeral_of, of_index, pretty, pretty_nat, pretty, pretty_N.
  case_decide as Hx.
  - rewrite Hx. split; [done|]. done.
  - rewrite numeral_from_pretty_go. split; [done|].
    destruct (pretty_go_leading (N.of_nat n) "") as (c & rest & -> & Hc);
      [lia|]. done.
Qed.

Lemma replace_underscores_spaced (id : string) :
  spaced id (replace_underscores id).
Proof.
  split.
  - induction id as [|c id IH]; [done|]. simpl. by rewrite IH.
  - induction id as [|c id IH]; intros k; [by destruct k|].
    destruct k as [|k]; simpl; [done|]. apply IH.
Qed.

End SpecWordsFacts.

(** ** The progress bridge *)

Module WorkflowProgressFacts.
Import Proto WorkflowProgress Words Samples.

(** C1, as the code has it.  [sendProgressMessage] returns nothing.
    When the host function is absent it makes no call and changes
    nothing.  When the host call hands back a promise, fulfilled or
    rejected, the message is posted once, the call completes normally
    and no rejection is left unhandled. *)
Theorem sendProgressMessage_silent
    (message : WorkflowProgressMessage) (h : Host) :
  (hostFn h = None ->
     sendProgressMessage message h = (Normal tt, h)) /\
  (forall send p,
     hostFn h = Some send ->
     send (length (posted h)) message = HostReturns p ->
     let r := sendProgressMessage message h in
     r.1 = Normal tt /\
     posted (r.2) = posted h ++ [message] /\
     unhandled (r.2) = unhandled h).
Proof.
  unfold sendProgressMessage. split.
  - by intros ->.
  - intros send p -> ->. simpl. split; [done|]. split; [done|].
    destruct p; simpl; by rewrite app_nil_r.
Qed.

Lemma sendProgressMessage_silent_witness :
  sendProgressMessage hello bare_window = (Normal tt, bare_window) /\
  (sendProgressMessage hello (window_with rejecting)).1 = Normal tt.
Proof.
  split.
  - apply (proj1 (sendProgressMessage_silent hello bare_window)).
    reflexivity.
  - apply (proj2 (sendProgressMessage_silent hello (window_with rejecting))
             rejecting (Rejected boom)); reflexivity.
Defined.

(** C1 as stated fails: a host function that throws before it hands
    back a promise makes [sendProgressMessage] throw. *)
Lemma sendProgressMessage_host_throw :
  (sendProgressMessage hello (window_with throwing)).1 = Throw boom.
Proof. reflexivity. Qed.

(** C7.  Each notifier is one [sendProgressMessage] of a message of the
    stated type, status and step index, carrying the given workflow id
    and steps; on a window that has the host function exactly that
    message is handed to the host. *)
Theorem notifiers_post_one_message
    (h : Host) (workflowId workflowName : string)
    (steps : list WorkflowProgressStep) (currentStepIndex : Z) :
  posts_one h (notifyWorkflowStart workflowId workflowName steps h)
    (fun m => msg_type m = workflow_progress_start /\
              msg_status m = Some MRunning /\
              msg_currentStepIndex m = Some 0 /\
              msg_workflowId m = workflowId /\
              msg_workflowName m = Some workflowName /\
              msg_steps m = Some steps) /\
  posts_one h (notifyStepUpdate workflowId steps currentStepIndex h)
    (fun m => msg_type m = workflow_progress_update /\
              msg_status m = Some MRunning /\
              msg_currentStepIndex m = Some currentStepIndex /\
              msg_workflowId m = workflowId /\
              msg_steps m = Some steps) /\
  posts_one h (notifyWorkflowComplete workflowId steps h)
    (fun m => msg_type m = workflow_progress_complete /\
              msg_status m = Some MCompleted /\
              msg_currentStepIndex m = Some (Z.of_nat (length steps) - 1) /\
              msg_workflowId m = workflowId /\
              msg_steps m = Some steps) /\
  posts_one h (notifyWorkflowError workflowId steps currentStepIndex h)
    (fun m => msg_type m = workflow_progress_error /\
              msg_status m = Some MError /\
              msg_currentStepIndex m = Some currentStepIndex /\
              msg_workflowId m = workflowId /\
              msg_steps m = Some steps).
Proof.
  assert (Hone : forall m,
    forall send, hostFn h = Some send ->
      posted (sendProgressMessage m h).2 = posted h ++ [m]).
  { intros m send Hf. unfold sendProgressMessage. rewrite Hf.
    by destruct (send _ m). }
  unfold posts_one, notifyWorkflowStart, notifyStepUpdate,
    notifyWorkflowComplete, notifyWorkflowError.
  repeat match goal with |- _ /\ _ => split end;
    (eexists; split; [|split; [reflexivity|apply Hone]]; done).
Qed.

Lemma notifiers_post_one_message_witness :
  exists m,
    posted (notifyWorkflowComplete "wf-1" [] (window_with accepting)).2
      = [m] /\
    msg_type m = workflow_progress_complete /\
    msg_status m = Some MCompleted /\
    msg_currentStepIndex m = Some (-1).
Proof.
  destruct (notifiers_post_one_message (window_with accepting)
              "wf-1" "Mail" [] 0)
    as (_ & _ & (m & (Ht & Hs & Hi & _) & _ & Hp) & _).
  exists m. split; [exact (Hp accepting eq_refl)|]. by repeat split.
Defined.

(** C8.  [parseWorkflowSteps] keeps the length, and its i-th step has
    the id "step-" followed by the decimal numeral of i, the i-th
    function id, the status pending, and as name the text after the
    last dot of the id, or the whole id when that text is empty (and
    when the id has no dot). *)
Theorem parseWorkflowSteps_shape (ids : list string) :
  length (parseWorkflowSteps ids) = length ids /\
  forall (i : nat) (functionId : string),
    ids !! i = Some functionId ->
    exists step,
      parseWorkflowSteps ids !! i = Some step /\
      (exists numeral,
         step_id step = "step-" +:+ numeral /\
         SpecWords.numeral_of i numeral) /\
      step_functionId step = functionId /\
      step_status step = SPending /\
      (has_dot functionId = false ->
       step_functionName step = functionId) /\
      (forall pre suf,
         functionId = pre +:+ "." +:+ suf -> has_dot suf = false ->
         (suf <> "" -> step_functionName step = suf) /\
         (suf = "" -> step_functionName step = functionId)).
Proof.
  unfold parseWorkflowSteps. split.
  - apply length_imap.
  - intros i fid Hi. exists (parseStep i fid).
    rewrite list_lookup_imap, Hi. simpl.
    rewrite pop_split_dot.
    split; [done|]. split.
    { eexists. split; [reflexivity|].
      apply SpecWordsFacts.of_index_numeral. }
    split; [done|]. split; [done|]. split.
    + intros Hd. rewrite (after_last_dot_no_dot fid Hd).
      unfold or_else. by destruct (decide (fid = "")).
    + intros pre suf -> Hsuf. rewrite (after_last_dot_suffix pre suf Hsuf).
      unfold or_else. destruct (decide (suf = "")); by split.
Qed.

Lemma parseWorkflowSteps_shape_witness :
  exists send keep,
    parseWorkflowSteps ["mail.send"; "fs."] = [send; keep] /\
    step_id send = "step-0" /\ step_functionName send = "send" /\
    step_id keep = "step-1" /\ step_functionId keep = "fs." /\
    step_status keep = SPending /\ step_functionName keep = "fs.".
Proof.
  destruct (proj2 (parseWorkflowSteps_shape ["mail.send"; "fs."])
              0%nat "mail.send" eq_refl)
    as (send & Hsend & _ & _ & _ & _ & Hname0).
  destruct (proj2 (parseWorkflowSteps_shape ["mail.send"; "fs."])
              1%nat "fs." eq_refl)
    as (keep & Hkeep & _ & Hfid & Hst & _ & Hname1).
  injection Hsend as Hsend. injection Hkeep as Hkeep.
  exists send, keep. split; [by rewrite <- Hsend, <- Hkeep|].
  split; [by rewrite <- Hsend|].
  split; [exact (proj1 (Hname0 "mail" "send" eq_refl eq_refl)
                   ltac:(discriminate))|].
  split; [by rewrite <- Hkeep|].
  split; [exact Hfid|]. split; [exact Hst|].
  exact (proj2 (Hname1 "fs" "" eq_refl eq_refl) eq_refl).
Defined.

Example parseWorkflowSteps_names :
  step_functionName <$> parseWorkflowSteps ["mail.send"; "fs."; "plain"]
  = ["send"; "fs."; "plain"].
Proof. reflexivity. Qed.

End WorkflowProgressFacts.

(** ** The generation hook *)

Module GenerationFacts.
Import Proto Env Log Generation Words Samples.

Lemma start_guard (seen : bool) (prompt : string) (s : State)
    (env : Env.t) :
  seen = true \/ trim prompt = "" ->
  start seen prompt s env = (Settled (Fulfilled tt), s, env).
Proof.
  unfold start. intros [-> | ->].
  - by rewrite orb_true_r.
  - done.
Qed.

Lemma start_opens (prompt : string) (s : State) (env : Env.t) :
  trim prompt <> "" ->
  start false prompt s env =
    (Awaiting {| ac := controllers env |},
     {| streaming := true; events := []; latest := None; runRes := None;
        abortRef := Some (controllers env) |},
     issue (generateWorkflow prompt (Some (controllers env)))
           (newAbortController env).2).
Proof.
  intros H. unfold start.
  rewrite bool_decide_eq_false_2 by done. reflexivity.
Qed.

Lemma start_resume_yield (f : StartFrame) (msg : GenerateWorkflowResponse)
    (s : State) (env : Env.t) :
  start_resume f (Yield msg) s env =
    (Awaiting f,
     {| streaming := streaming s;
        events := events s ++
          [{| t := clock env (ticks env); kind := message_;
              payload := Some (generated msg) |}];
        latest := Some msg; runRes := runRes s; abortRef := abortRef s |},
     (now env).2).
Proof. reflexivity. Qed.

(** However the stream ends, the call settles without an error for the
    caller, [streaming] is false and [abortRef] is cleared. *)
Lemma start_resume_end (f : StartFrame) (item : StreamItem)
    (s : State) (env : Env.t) :
  (forall msg, item <> Yield msg) ->
  let r := start_resume f item s env in
  r.1.1 = Settled (Fulfilled tt) /\
  streaming (r.1.2) = false /\ abortRef (r.1.2) = None.
Proof.
  intros H. destruct item as [msg| |e]; simpl.
  - by destruct (H msg).
  - done.
  - by destruct (bool_decide (name e = "AbortError")).
Qed.

Lemma start_resume_abort (f : StartFrame) (e : Error) (s : State)
    (env : Env.t) :
  name e = "AbortError" ->
  start_resume f (StreamThrows e) s env =
    (Settled (Fulfilled tt), start_finally s, env).
Proof.
  intros H. unfold start_resume.
  by rewrite bool_decide_eq_true_2.
Qed.

Lemma start_resume_error (f : StartFrame) (e : Error) (s : State)
    (env : Env.t) :
  name e <> "AbortError" ->
  start_resume f (StreamThrows e) s env =
    (Settled (Fulfilled tt),
     {| streaming := false;
        events := events s ++
          [{| t := clock env (ticks env); kind := error_;
              payload := Some (thrown e) |}];
        latest := latest s; runRes := runRes s; abortRef := None |},
     (now env).2).
Proof.
  intros H. unfold start_resume.
  by rewrite bool_decide_eq_false_2.
Qed.

(** The messages of a stream, as [feed] logs them. *)
Lemma feed_yields (f : StartFrame) (msgs : list GenerateWorkflowResponse)
    (rest : list StreamItem) (s : State) (env : Env.t) :
  exists s' env',
    feed f ((Yield <$> msgs) ++ rest) s env = feed f rest s' env' /\
    kind <$> events s' = (kind <$> events s) ++ (const message_ <$> msgs) /\
    payload <$> events s'
      = (payload <$> events s) ++ ((fun m => Some (generated m)) <$> msgs) /\
    streaming s' = streaming s /\ abortRef s' = abortRef s /\
    issued env' = issued env /\ aborted env' = aborted env.
Proof.
  revert s env. induction msgs as [|msg msgs IH]; intros s env.
  - exists s, env. simpl. by rewrite !app_nil_r.
  - simpl.
    edestruct IH as (s' & env' & -> & Hk & Hp & Hs & Ha & Hi & Hb).
    exists s', env'. split; [done|].
    rewrite Hk, Hp, Hs, Ha, Hi, Hb. simpl.
    rewrite !fmap_app, <- !app_assoc. done.
Qed.

End GenerationFacts.

(** ** The generation hook under the event loop *)

Module GenerationLoopFacts.
Import Proto Env Log Generation GenerationLoop Words Samples.
Import GenerationFacts.

Local Abbreviation streams_of :=
  (omap (fun c => match c with
                  | StartCall f => Some f
                  | RunLatestCall _ => None
                  end)).

Lemma streams_of_split (l : list Call) (k : nat) (c : Call) :
  l !! k = Some c ->
  exists l1 l2,
    l = l1 ++ c :: l2 /\
    delete k l = l1 ++ l2 /\
    forall c', <[k := c']> l = l1 ++ c' :: l2.
Proof.
  intros H. exists (take k l), (drop (S k) l).
  split; [by rewrite take_drop_middle|].
  split; [by rewrite delete_take_drop|].
  intros c'. apply insert_take_drop. by eapply lookup_lt_Some.
Qed.

(** Rescheduling a [runLatest] call leaves the open streams alone. *)
Lemma streams_of_reschedule_run (l : list Call) (k : nat)
    (g : RunLatestFrame) (a : Async RunLatestFrame) :
  l !! k = Some (RunLatestCall g) ->
  streams_of (reschedule RunLatestCall k a l) = streams_of l.
Proof.
  intros H.
  destruct (streams_of_split l k _ H) as (l1 & l2 & Hl & Hd & Hi).
  destruct a as [g'|p]; simpl.
  - rewrite Hi, Hl, !omap_app. done.
  - rewrite Hd, Hl, !omap_app. done.
Qed.

(** The only open stream, once its call has settled, is gone. *)
Lemma streams_of_delete_start (l : list Call) (k : nat)
    (f f' : StartFrame) :
  l !! k = Some (StartCall f) ->
  streams_of l = [f'] ->
  f' = f /\ streams_of (delete k l) = [].
Proof.
  intros H.
  destruct (streams_of_split l k _ H) as (l1 & l2 & Hl & Hd & _).
  rewrite Hd, Hl, !omap_app. simpl.
  intros Heq.
  destruct (streams_of l1) as [|x xs]; simpl in *.
  - by injection Heq as -> Heq.
  - injection Heq as -> Heq. by destruct xs.
Qed.

Lemma streams_of_start_in (l : list Call) (k : nat) (f : StartFrame) :
  l !! k = Some (StartCall f) -> f ∈ streams_of l.
Proof.
  intros H. apply list_elem_of_omap. exists (StartCall f).
  split; [|done]. by eapply list_elem_of_lookup_2.
Qed.

Lemma boot_consistent (e : Env.t) :
  issued e = [] -> consistent (boot e).
Proof. intros H. split; simpl; [by rewrite H|done]. Qed.

Lemma filter_signal_fresh (n : nat) (l : list Request) :
  Forall (fun r => forall m, signal_of r = Some m -> (m < n)%nat) l ->
  filter (fun r => signal_of r = Some n) l = [].
Proof.
  induction 1 as [|r l Hr _ IH]; [done|].
  rewrite filter_cons_False; [done|].
  intros Hn. specialize (Hr _ Hn). lia.
Qed.

Lemma filter_signal_none (n : nat) (l : list Request) :
  Forall (fun r => signal_of r = None) l ->
  filter (fun r => signal_of r = Some n) l = [].
Proof.
  induction 1 as [|r l Hr _ IH]; [done|].
  rewrite filter_cons_False; [done|]. by rewrite Hr.
Qed.

Lemma step_consistent (w : World) (i : Input) :
  consistent w -> timely w i -> consistent (step w i).
Proof.
  intros [Hsig Hone] Htimely. destruct w as [s env l].
  unfold open_streams in *. simpl in *.
  destruct i as [seen prompt| | |seen|k o]; simpl.
  - (* start *)
    simpl in Htimely. subst seen.
    destruct (streams_of l) as [|f [|f2 rest]] eqn:Hs; [| |done].
    + destruct Hone as [Hst Hab]. rewrite Hst.
      destruct (decide (trim prompt = "")) as [Hb|Hb].
      * rewrite start_guard by auto.
        split; unfold open_streams; simpl; [done|]. by rewrite Hs.
      * rewrite start_opens by done.
        split; unfold open_streams; simpl.
        -- apply Forall_app. split.
           ++ eapply Forall_impl; [exact Hsig|].
              intros r Hr n Hn. specialize (Hr n Hn). lia.
           ++ apply Forall_singleton. intros n [= <-]. lia.
        -- rewrite omap_app, Hs. simpl.
           split; [done|]. split; [done|]. exists prompt.
           rewrite filter_app, (filter_signal_fresh _ _ Hsig).
           by rewrite filter_cons_True.
    + destruct Hone as (Hst & Hab & Hreq). rewrite Hst.
      rewrite start_guard by auto.
      split; unfold open_streams; simpl; [done|]. by rewrite Hs.
  - (* stop *)
    split; unfold open_streams; simpl.
    + unfold stop. by destruct (abortRef s).
    + unfold stop. by destruct (abortRef s).
  - (* clearEvents *)
    split; unfold open_streams; simpl; done.
  - (* runLatest *)
    unfold runLatest.
    destruct (seen ≫= workflowDefinition) as [wf|]; simpl.
    + split; unfold open_streams; simpl.
      * apply Forall_app. split; [done|]. by apply Forall_singleton.
      * rewrite omap_app. simpl. rewrite app_nil_r.
        destruct (streams_of l) as [|f [|f2 rest]]; [done| |done].
        destruct Hone as (Hst & Hab & prompt0 & Hreq).
        split; [done|]. split; [done|]. exists prompt0.
        rewrite filter_app, Hreq. by rewrite filter_cons_False.
    + split; unfold open_streams; simpl; done.
  - (* a suspended call is resumed *)
    destruct (l !! k) as [[f|g]|] eqn:Hk; simpl;
      [| |split; unfold open_streams; simpl; done].
    + (* start *)
      destruct o as [item|p|p];
        [|split; unfold open_streams; simpl; done ..].
      pose proof (streams_of_start_in l k f Hk) as Hin.
      destruct (streams_of l) as [|f' [|f2 rest]] eqn:Hs;
        [by apply elem_of_nil in Hin| |done].
      destruct Hone as (Hst & Hab & prompt0 & Hreq).
      destruct (streams_of_delete_start l k f f' Hk Hs) as [-> Hdel].
      assert (Hend : forall s' env',
        issued env' = issued env -> controllers env' = controllers env ->
        consistent {| hook := start_finally s'; env := env';
                      calls := delete k l |}).
      { intros s' env' Hi Hc.
        split; unfold open_streams; simpl.
        - by rewrite Hi, Hc.
        - by rewrite Hdel. }
      destruct item as [msg| |e].
      * rewrite start_resume_yield. simpl.
        rewrite list_insert_id by done.
        split; unfold open_streams; simpl; [done|].
        rewrite Hs. eauto.
      * simpl. by apply Hend.
      * simpl. destruct (bool_decide (name e = "AbortError"));
          by apply Hend.
    + (* runLatest *)
      assert (Hkeep : forall a s' env' new,
        streaming s' = streaming s -> abortRef s' = abortRef s ->
        issued env' = issued env ++ new ->
        Forall (fun r => signal_of r = None) new ->
        controllers env' = controllers env ->
        consistent {| hook := s'; env := env';
                      calls := reschedule RunLatestCall k a l |}).
      { intros a s' env' new Hst Hab Hi Hnew Hc.
        split; unfold open_streams; simpl.
        - rewrite Hi, Hc. apply Forall_app. split; [done|].
          eapply Forall_impl; [exact Hnew|]. by intros r -> n.
        - rewrite (streams_of_reschedule_run l k g a Hk), Hst, Hab, Hi.
          destruct (streams_of l) as [|f [|f2 rest]]; [done| |done].
          destruct Hone as (? & ? & prompt0 & Hreq).
          split; [done|]. split; [done|]. exists prompt0.
          rewrite filter_app, Hreq.
          by rewrite (filter_signal_none _ _ Hnew). }
      destruct g, o as [item|p|p];
        try (split; unfold open_streams; simpl; done).
      * (* updateWorkflow settles *)
        unfold runLatest_saved.
        destruct p as [resp|e]; simpl;
          [|by eapply (Hkeep (Settled (Fulfilled tt)) _ _ []); simpl; rewrite ?app_nil_r].
        destruct (savedWorkflow resp) as [wf|]; simpl;
          [|by eapply (Hkeep (Settled (Fulfilled tt)) _ _ []); simpl; rewrite ?app_nil_r].
        destruct (bool_decide (Proto.workflowId wf = "")); simpl;
          [by eapply (Hkeep (Settled (Fulfilled tt)) _ _ []); simpl; rewrite ?app_nil_r|].
        eapply (Hkeep (Awaiting AwaitRun) _ _ [_]); simpl; try done.
        by apply Forall_singleton.
      * (* runWorkflow settles *)
        unfold runLatest_ran.
        destruct p as [res|e]; simpl;
          by eapply (Hkeep (Settled (Fulfilled tt)) _ _ []); simpl; rewrite ?app_nil_r.
Qed.

Lemma run_consistent (w : World) (inputs : list Input) :
  consistent w -> up_to_date w inputs -> consistent (run w inputs).
Proof.
  revert w. induction inputs as [|i inputs IH]; intros w Hw Hup; [done|].
  destruct Hup as [Hi Hup]. simpl. apply IH; [|done].
  by apply step_consistent.
Qed.

(** Whatever the calls have closed over, the controller in [abortRef]
    belongs to an open stream. *)
Lemma step_ref_is_open (w : World) (i : Input) :
  ref_is_open w -> ref_is_open (step w i).
Proof.
  unfold ref_is_open, open_streams. destruct w as [s env l]. simpl.
  intros Hw. destruct i as [seen prompt| | |seen|k o]; simpl; try done.
  - unfold start.
    destruct (bool_decide (trim prompt = "") || seen); simpl; [done|].
    intros n [= <-]. exists {| ac := controllers env |}.
    split; [|done]. rewrite omap_app. apply elem_of_app. right.
    apply list_elem_of_singleton. done.
  - unfold runLatest.
    destruct (seen ≫= workflowDefinition) as [wf|]; simpl; [|done].
    intros n Hn. destruct (Hw n Hn) as (f & Hf & Hac).
    exists f. split; [|done]. rewrite omap_app. apply elem_of_app.
    by left.
  - destruct (l !! k) as [[f|g]|] eqn:Hk; simpl; [| |done].
    + destruct o as [item|p|p]; [|done..].
      destruct item as [msg| |e]; simpl.
      * by rewrite list_insert_id.
      * done.
      * by destruct (bool_decide (name e = "AbortError")).
    + assert (Hkeep : forall (a : Async RunLatestFrame) s',
        abortRef s' = abortRef s ->
        forall n, abortRef s' = Some n ->
          exists f, f ∈ streams_of (reschedule RunLatestCall k a l)
                    /\ ac f = n).
      { intros a s' Hab n Hn.
        rewrite (streams_of_reschedule_run l k g a Hk).
        apply Hw. by rewrite <- Hab. }
      destruct g, o as [item|p|p]; try done.
      * unfold runLatest_saved.
        destruct p as [resp|e]; simpl;
          [|by apply (Hkeep (Settled (Fulfilled tt)))].
        destruct (savedWorkflow resp) as [wf|]; simpl;
          [|by apply (Hkeep (Settled (Fulfilled tt)))].
        destruct (bool_decide (Proto.workflowId wf = "")); simpl;
          [by apply (Hkeep (Settled (Fulfilled tt)))|].
        by apply (Hkeep (Awaiting AwaitRun)).
      * unfold runLatest_ran.
        destruct p as [res|e]; simpl;
          by apply (Hkeep (Settled (Fulfilled tt))).
Qed.

Lemma run_ref_is_open (w : World) (inputs : list Input) :
  ref_is_open w -> ref_is_open (run w inputs).
Proof.
  revert w. induction inputs as [|i inputs IH]; intros w Hw; [done|].
  simpl. apply IH. by apply step_ref_is_open.
Qed.

Lemma boot_ref_is_open (e : Env.t) : ref_is_open (boot e).
Proof. intros n Hn. discriminate. Qed.

(** C2, as the code has it.  [start] does nothing when the callback
    has closed over [streaming = true] or the prompt is blank.  In
    every world the event loop reaches from a fresh hook by a trace
    whose [start] calls are up to date, at most one stream is open and
    [streaming] tells whether one is; while one is open a further such
    [start] is a no-op and [stop()] aborts the controller whose signal
    that stream's request, and no other request, carries.  When a
    stream ends, with or without an error, the call settles with
    [streaming = false] and [abortRef] cleared. *)
Theorem one_generation_stream :
  (forall seen prompt s e,
     seen = true \/ trim prompt = "" ->
     start seen prompt s e = (Settled (Fulfilled tt), s, e)) /\
  (forall e0 inputs w,
     issued e0 = [] ->
     up_to_date (boot e0) inputs ->
     w = run (boot e0) inputs ->
     (length (open_streams w) <= 1)%nat /\
     (streaming (hook w) = true <-> open_streams w <> []) /\
     forall f, f ∈ open_streams w ->
       (forall seen prompt,
          timely w (ui_start seen prompt) ->
          step w (ui_start seen prompt) = w) /\
       (exists prompt,
          filter (fun r => signal_of r = Some (ac f)) (issued (env w))
          = [generateWorkflow prompt (Some (ac f))]) /\
       step w ui_stop
         = {| hook := hook w; env := abort (ac f) (env w);
              calls := calls w |} /\
       aborted (env (step w ui_stop)) = {[ac f]} ∪ aborted (env w)) /\
  (forall f item s e,
     (forall msg, item <> Yield msg) ->
     let r := start_resume f item s e in
     r.1.1 = Settled (Fulfilled tt) /\
     streaming (r.1.2) = false /\ abortRef (r.1.2) = None).
Proof.
  split; [exact start_guard|]. split; [|exact start_resume_end].
  intros e0 inputs w He0 Hup ->.
  destruct (run_consistent (boot e0) inputs (boot_consistent e0 He0) Hup)
    as [_ Hone].
  destruct (run (boot e0) inputs) as [s e l]. simpl in *.
  destruct (open_streams _) as [|f0 [|f1 rest]] eqn:Hs; [| |done].
  - destruct Hone as [Hst Hab]. split; [simpl; lia|].
    split; [by rewrite Hst|]. intros f Hf. by apply elem_of_nil in Hf.
  - destruct Hone as (Hst & Hab & Hreq). split; [simpl; lia|].
    split; [by rewrite Hst|]. intros f Hf.
    apply list_elem_of_singleton in Hf as ->.
    split.
    { intros seen prompt Ht. simpl in Ht. subst seen.
      by rewrite Hst, start_guard by auto. }
    split; [exact Hreq|].
    unfold stop. rewrite Hab. done.
Qed.

Lemma one_generation_stream_witness :
  start true "send a mail" initial quiet
    = (Settled (Fulfilled tt), initial, quiet) /\
  step generating ui_stop
    = {| hook := hook generating; env := abort 0 (env generating);
         calls := calls generating |} /\
  abortRef (start_resume {| ac := 0 |} EndOfStream
              (hook generating) (env generating)).1.2 = None.
Proof.
  split; [|split].
  - apply (proj1 one_generation_stream). by left.
  - destruct (proj1 (proj2 one_generation_stream) quiet
             [ui_start false "send a mail";
              resume 0 (StreamGives (Yield draft))]
             generating eq_refl (conj eq_refl (conj I I)) eq_refl)
      as (_ & _ & H).
    destruct (H {| ac := 0 |}) as (_ & _ & Hstop & _); [|exact Hstop].
    apply list_elem_of_singleton. reflexivity.
  - apply (proj2 (proj2 one_generation_stream) {| ac := 0 |} EndOfStream).
    intros msg. discriminate.
Defined.

(** C2 as stated fails when [start] is called twice from one render.
    Both callbacks have closed over [streaming = false]: the second
    call is made while the first stream is open and [streaming] is
    true, and it opens a second stream all the same.  [abortRef] then
    holds the second controller only, so [stop()] aborts the second
    stream and not the first; and when the second stream ends,
    [streaming] is false while the first is still open. *)
Lemma two_streams_from_one_render :
  let w1 := run (boot quiet) [ui_start false "a"] in
  let w2 := step w1 (ui_start false "b") in
  let w3 := step w2 (resume 1 (StreamGives EndOfStream)) in
  streaming (hook w1) = true /\
  open_streams w1 = [{| ac := 0 |}] /\
  open_streams w2 = [{| ac := 0 |}; {| ac := 1 |}] /\
  issued (env w2)
    = [generateWorkflow "a" (Some 0%nat); generateWorkflow "b" (Some 1%nat)] /\
  env (step w2 ui_stop) = abort 1 (env w2) /\
  streaming (hook w3) = false /\ abortRef (hook w3) = None /\
  open_streams w3 = [{| ac := 0 |}] /\
  step w3 ui_stop = w3.
Proof. by repeat split. Qed.

(** C9.  When the stream throws an error named "AbortError", the call
    settles without an error for the caller and appends nothing: the
    log is as the last message left it, [streaming] is false and
    [abortRef] is cleared.  For a whole call that received [msgs]
    before the abort, the log holds the events of those messages and
    no other. *)
Theorem abort_is_silent (prompt : string)
    (msgs : list GenerateWorkflowResponse) (e : Error)
    (s0 : State) (e0 : Env.t) :
  trim prompt <> "" ->
  name e = "AbortError" ->
  (forall f s env,
     let r := start_resume f (StreamThrows e) s env in
     r.1.1 = Settled (Fulfilled tt) /\
     events (r.1.2) = events s /\ latest (r.1.2) = latest s /\
     streaming (r.1.2) = false /\ abortRef (r.1.2) = None /\
     r.2 = env) /\
  let r := start_call false prompt
             ((Yield <$> msgs) ++ [StreamThrows e]) s0 e0 in
  r.1.1 = Settled (Fulfilled tt) /\
  kind <$> events (r.1.2) = const message_ <$> msgs /\
  payload <$> events (r.1.2) = (fun m => Some (generated m)) <$> msgs /\
  streaming (r.1.2) = false /\ abortRef (r.1.2) = None.
Proof.
  intros Hp He. split.
  - intros f s env. by rewrite start_resume_abort.
  - unfold start_call. rewrite start_opens by done.
    edestruct feed_yields as (s' & env' & -> & Hk & Hpay & _).
    unfold feed. rewrite start_resume_abort by done. simpl.
    by rewrite Hk, Hpay.
Qed.

Lemma abort_is_silent_witness :
  let r := start_call false "send a mail"
             [Yield draft; StreamThrows aborted_by_user] initial quiet in
  r.1.1 = Settled (Fulfilled tt) /\
  kind <$> events (r.1.2) = [message_] /\
  payload <$> events (r.1.2) = [Some (generated draft)] /\
  streaming (r.1.2) = false /\ abortRef (r.1.2) = None.
Proof.
  apply (proj2 (abort_is_silent "send a mail" [draft] aborted_by_user
                  initial quiet ltac:(discriminate) eq_refl)).
Defined.

End GenerationLoopFacts.

(** ** The run hook *)

Module RunFacts.
Import Proto Env Log WorkflowProgress Words Samples.

Lemma calm_refl (env : Env.t) : calm env env.
Proof. by repeat split. Qed.

Lemma calm_trans (e1 e2 e3 : Env.t) : calm e1 e2 -> calm e2 e3 -> calm e1 e3.
Proof.
  intros (?&?&?&?&?) (?&?&?&?&?). repeat split; congruence.
Qed.

Lemma calm_now (env : Env.t) : calm env (now env).2.
Proof. by repeat split. Qed.

Lemma calm_promises (e1 e2 : Env.t) :
  calm e1 e2 -> returns_promises (host e1) -> returns_promises (host e2).
Proof.
  intros (_&_&_&_&Hh) H send n m e Hs. apply (H send n m e). congruence.
Qed.

(** A call of the host function from a hook. *)
Lemma on_host_send (m : WorkflowProgressMessage) (env : Env.t) :
  let r := on_host (sendProgressMessage m) env in
  calm env (r.2) /\ ticks (r.2) = ticks env /\ clock (r.2) = clock env /\
  (returns_promises (host env) -> r.1 = Normal tt) /\
  (hostFn (host env) = None -> r = (Normal tt, env)).
Proof.
  unfold on_host, sendProgressMessage, calm.
  destruct env as [ck tk iss ctl ab h con]. simpl.
  destruct (hostFn h) as [send|] eqn:Hf; simpl.
  - destruct (send (length (posted h)) m) as [p|e] eqn:Hs; simpl.
    + repeat split; try done.
    + repeat split; try done. intros H. by destruct (H _ _ _ _ Hf Hs).
  - repeat split; done.
Qed.

Lemma mark_completed_calm (steps : list WorkflowProgressStep)
    (env : Env.t) :
  calm env (RunV2.mark_completed steps env).2.
Proof.
  revert env. induction steps as [|st steps IH]; intros env; simpl.
  - apply calm_refl.
  - pose proof (IH (now env).2) as H. simpl in H |- *.
    destruct (RunV2.mark_completed steps _) as [rest env'].
    exact H.
Qed.

(** *** First version *)

Lemma v1_runById_busy (workflowId : string) (codeId : option string)
    (s : RunV1.State) (env : Env.t) :
  RunV1.runById true workflowId codeId s env
  = (Settled (Fulfilled tt), s, env).
Proof. reflexivity. Qed.

Lemma v1_runById_idle (workflowId : string) (codeId : option string)
    (s : RunV1.State) (env : Env.t) :
  RunV1.runById false workflowId codeId s env
  = (Awaiting tt,
     {| RunV1.running := true;
        RunV1.events := [run_started (clock env (ticks env))];
        RunV1.runRes := None |},
     issue (runWorkflow workflowId (or_else (default "" codeId) "") None)
           (now env).2).
Proof. reflexivity. Qed.

Lemma v1_resume_fulfilled (res : RunWorkflowResponse) (s : RunV1.State)
    (env : Env.t) :
  RunV1.runById_resume tt (Fulfilled res) s env
  = (Fulfilled tt,
     {| RunV1.running := false;
        RunV1.events := (RunV1.events s
           ++ [run_result (clock env (ticks env)) res])
           ++ [run_done (clock env (S (ticks env)))];
        RunV1.runRes := Some res |},
     (now (now env).2).2).
Proof. reflexivity. Qed.

Lemma v1_resume_rejected (e : Error) (s : RunV1.State) (env : Env.t) :
  RunV1.runById_resume tt (Rejected e) s env
  = (Fulfilled tt,
     {| RunV1.running := false;
        RunV1.events := RunV1.events s ++ [failed (clock env (ticks env)) e];
        RunV1.runRes := RunV1.runRes s |},
     (now env).2).
Proof. reflexivity. Qed.

(** *** Second version *)

(** Name the outcome of the next host call of the goal and collect
    what [on_host_send] says of it. *)
Ltac host_call c env' H :=
  unfold notifyWorkflowStart, notifyWorkflowComplete, notifyWorkflowError;
  match goal with
  | |- context [on_host (sendProgressMessage ?m) ?e] =>
      pose proof (on_host_send m e) as H; cbv zeta in H;
      destruct (on_host (sendProgressMessage m) e) as [c env'];
      simpl in H
  end.

Lemma v2_catch_block (e : Error) (workflowId : string)
    (steps : list WorkflowProgressStep) (s : RunV2.State) (env : Env.t) :
  let r := RunV2.catch_block e workflowId steps s env in
  r.1.2 = RunV1.setEvents
            (RunV1.events s ++ [failed (clock env (ticks env)) e]) s /\
  calm env (r.2) /\
  (returns_promises (host env) -> r.1.1 = Normal tt).
Proof.
  unfold RunV2.catch_block. simpl. destruct steps as [|st steps].
  - simpl. repeat split; done.
  - host_call c env' H. simpl.
    destruct H as (Hc & _ & _ & Hp & _).
    split; [done|]. split; [|exact Hp].
    eapply calm_trans; [apply calm_now|exact Hc].
Qed.

Lemma v2_runById_busy (workflowId : string) (codeId : option string)
    (workflow : option Workflow) (s : RunV2.State) (env : Env.t) :
  RunV2.runById true workflowId codeId workflow s env
  = (Settled (Fulfilled tt), s, env).
Proof. reflexivity. Qed.


Lemma v2_runById_idle (workflowId : string) (codeId : option string)
    (workflow : option Workflow) (s : RunV2.State) (env : Env.t) :
  returns_promises (host env) ->
  let r := RunV2.runById false workflowId codeId workflow s env in
  exists f time,
    r.1.1 = Awaiting f /\
    RunV2.frame_workflowId f = workflowId /\
    r.1.2 = {| RunV1.running := true;
               RunV1.events := [run_started time];
               RunV1.runRes := None |} /\
    issues env (r.2)
      [runWorkflow workflowId (or_else (default "" codeId) "") None] /\
    aborted (r.2) = aborted env /\
    hostFn (host (r.2)) = hostFn (host env).
Proof.
  intros Hp. unfold RunV2.runById. cbv zeta.
  destruct (parseWorkflowSteps _) as [|st steps].
  - simpl. eexists _, _.
    split; [reflexivity|]. split; [reflexivity|]. split; [reflexivity|].
    by repeat split.
  - unfold RunV2.mark_started. simpl.
    host_call c env' H. destruct H as (Hc & _ & _ & Hn & _).
    rewrite (Hn Hp). simpl.
    destruct Hc as (Hi & Ha & _ & _ & Hh).
    eexists _, _.
    split; [reflexivity|]. split; [reflexivity|]. split; [reflexivity|].
    split; [|by split].
    unfold issues. simpl. by rewrite Hi.
Qed.


Lemma v2_resume_fulfilled (f : RunV2.Frame) (res : RunWorkflowResponse)
    (s : RunV2.State) (env : Env.t) :
  returns_promises (host env) ->
  let r := RunV2.runById_resume f (Fulfilled res) s env in
  r.1 = (Fulfilled tt,
         {| RunV1.running := false;
            RunV1.events := (RunV1.events s
               ++ [run_result (clock env (ticks env)) res])
               ++ [run_done (clock env (S (ticks env)))];
            RunV1.runRes := Some res |}).
Proof.
  intros Hp. unfold RunV2.runById_resume. simpl.
  destruct (RunV2.frame_steps f) as [|st steps] eqn:Hs; [done|].
  pose proof (mark_completed_calm (st :: steps) (now (now env).2).2) as Hm.
  simpl in Hm |- *.
  destruct (RunV2.mark_completed steps _) as [rest env1]. simpl in Hm.
  host_call c env2 H. destruct H as (_ & _ & _ & Hn & _).
  rewrite Hn; [done|].
  eapply calm_promises; [exact Hm|done].
Qed.

Lemma v2_resume_rejected_any (f : RunV2.Frame) (e : Error)
    (s : RunV2.State) (env : Env.t) :
  let r := RunV2.runById_resume f (Rejected e) s env in
  r.1.2 = {| RunV1.running := false;
             RunV1.events :=
               RunV1.events s ++ [failed (clock env (ticks env)) e];
             RunV1.runRes := RunV1.runRes s |} /\
  (returns_promises (host env) -> r.1.1 = Fulfilled tt).
Proof.
  unfold RunV2.runById_resume. cbv zeta.
  pose proof (v2_catch_block e (RunV2.frame_workflowId f)
                (RunV2.frame_steps f) s env) as (Hs & _ & Hn).
  destruct (RunV2.catch_block _ _ _ _ _) as [[c s'] env'].
  simpl in *. split; [by rewrite Hs|].
  intros Hp. by rewrite (Hn Hp).
Qed.

Lemma v2_caught_state (e : Error) (workflowId : string)
    (steps : list WorkflowProgressStep) (s : RunV2.State) (env : Env.t) :
  let r := RunV2.finally (RunV2.catch_block e workflowId steps s env) in
  r.1.2 = {| RunV1.running := false;
             RunV1.events :=
               RunV1.events s ++ [failed (clock env (ticks env)) e];
             RunV1.runRes := RunV1.runRes s |} /\
  (returns_promises (host env) -> r.1.1 = Fulfilled tt).
Proof.
  pose proof (v2_catch_block e workflowId steps s env) as (Hs & _ & Hn).
  destruct (RunV2.catch_block _ _ _ _ _) as [[c s'] env'].
  simpl in *. split; [by rewrite Hs|].
  intros Hp. by rewrite (Hn Hp).
Qed.

Lemma v2_resume_rejected (f : RunV2.Frame) (e : Error)
    (s : RunV2.State) (env : Env.t) :
  returns_promises (host env) ->
  let r := RunV2.runById_resume f (Rejected e) s env in
  r.1 = (Fulfilled tt,
         {| RunV1.running := false;
            RunV1.events :=
              RunV1.events s ++ [failed (clock env (ticks env)) e];
            RunV1.runRes := RunV1.runRes s |}).
Proof.
  intros Hp. unfold RunV2.runById_resume. cbv zeta.
  pose proof (v2_catch_block e (RunV2.frame_workflowId f)
                (RunV2.frame_steps f) s env) as (Hs & _ & Hn).
  specialize (Hn Hp).
  destruct (RunV2.catch_block _ _ _ _ _) as [[c s'] env'].
  simpl in *. by rewrite Hs, Hn.
Qed.

(** *** No request but the stream's carries a signal *)







Lemma accepting_returns_promises :
  returns_promises (host (env_with (window_with accepting))).
Proof. intros send n m e [= <-]. discriminate. Qed.

(** Where [runById] is the state machine it is meant to be.  In both
    versions an invocation that has seen [running = true] changes
    nothing.  One that has seen [running = false] leaves the log with
    the start message as its only event, [running = true], no result,
    and one [runWorkflow] request; when the request is fulfilled the
    call ends with [running = false] and the result and a done event
    appended; when it is rejected the call ends with [running = false]
    and an error event appended.  For the second version this is shown
    for a host function that hands back promises. *)
Lemma runById_state_machine :
  (forall workflowId codeId s env,
     RunV1.runById true workflowId codeId s env
     = (Settled (Fulfilled tt), s, env) /\
     exists time env',
       RunV1.runById false workflowId codeId s env
       = (Awaiting tt,
          {| RunV1.running := true;
             RunV1.events := [run_started time];
             RunV1.runRes := None |}, env') /\
       issues env env'
         [runWorkflow workflowId (or_else (default "" codeId) "") None]) /\
  (forall p s env,
     let r := RunV1.runById_resume tt p s env in
     r.1.1 = Fulfilled tt /\ RunV1.running (r.1.2) = false /\
     exists t1 t2,
       RunV1.events (r.1.2)
       = RunV1.events s ++
           match p with
           | Fulfilled res => [run_result t1 res; run_done t2]
           | Rejected e => [failed t1 e]
           end) /\
  (forall workflowId codeId workflow s env,
     RunV2.runById true workflowId codeId workflow s env
     = (Settled (Fulfilled tt), s, env) /\
     (returns_promises (host env) ->
      exists f time env',
        RunV2.runById false workflowId codeId workflow s env
        = (Awaiting f,
           {| RunV1.running := true;
              RunV1.events := [run_started time];
              RunV1.runRes := None |}, env') /\
        issues env env'
          [runWorkflow workflowId (or_else (default "" codeId) "") None])) /\
  (forall f p s env,
     returns_promises (host env) ->
     let r := RunV2.runById_resume f p s env in
     r.1.1 = Fulfilled tt /\ RunV1.running (r.1.2) = false /\
     exists t1 t2,
       RunV1.events (r.1.2)
       = RunV1.events s ++
           match p with
           | Fulfilled res => [run_result t1 res; run_done t2]
           | Rejected e => [failed t1 e]
           end).
Proof.
  split; [|split; [|split]].
  - intros wid cid s env. split; [done|].
    rewrite v1_runById_idle. eexists _, _. by split.
  - intros [res|e] s env.
    + rewrite v1_resume_fulfilled. simpl. split; [done|]. split; [done|].
      eexists _, _. by rewrite <- app_assoc.
    + rewrite v1_resume_rejected. simpl. split; [done|]. split; [done|].
      by eexists _, 0.
  - intros wid cid wf s env. split; [done|]. intros Hp.
    destruct (v2_runById_idle wid cid wf s env Hp)
      as (f & time & Ha & _ & Hs & Hi & _).
    destruct (RunV2.runById _ _ _ _ _ _) as [[a s'] env'].
    simpl in *. subst. by eexists _, _, _.
  - intros f [res|e] s env Hp.
    + pose proof (v2_resume_fulfilled f res s env Hp) as H.
      cbv zeta in *. rewrite H. simpl. split; [done|]. split; [done|].
      eexists _, _. by rewrite <- app_assoc.
    + pose proof (v2_resume_rejected f e s env Hp) as H.
      cbv zeta in *. rewrite H. simpl. split; [done|]. split; [done|].
      by eexists _, 0.
Qed.

Lemma runById_state_machine_witness :
  let r := RunV2.runById_resume
             {| RunV2.frame_workflowId := "wf-1";
                RunV2.frame_steps := parseWorkflowSteps ["mail.send"] |}
             (Rejected unavailable) RunV1.initial
             (env_with (window_with accepting)) in
  r.1.1 = Fulfilled tt /\ RunV1.running (r.1.2) = false /\
  exists t1 t2 : Z,
    RunV1.events (r.1.2) = [] ++ [failed t1 unavailable].
Proof.
  apply (proj2 (proj2 (proj2 runById_state_machine))
           {| RunV2.frame_workflowId := "wf-1";
              RunV2.frame_steps := parseWorkflowSteps ["mail.send"] |}
           (Rejected unavailable) RunV1.initial
           (env_with (window_with accepting))
           accepting_returns_promises).
Defined.

(** C3.  The second version departs from the claim.  When the host
    function throws, [runById] ends at [notifyWorkflowStart], which
    comes after [setRunning(true)] and before the [try]: the call
    rejects, [running] stays true, the log stays empty and no request
    is issued, so a later invocation, which sees [running = true],
    does nothing.  On the same window [runByDefinition], which
    notifies inside its [try], ends with [running = false], as the
    [finally] block of both functions means it to. *)
Lemma runById_stuck_running :
  let env := env_with (window_with throwing) in
  let r := RunV2.runById false "wf-1" None (Some mail_workflow)
             RunV1.initial env in
  r.1.1 = Settled (Rejected boom) /\
  RunV1.running (r.1.2) = true /\ RunV1.events (r.1.2) = [] /\
  issued (r.2) = [] /\
  RunV2.runById (RunV1.running (r.1.2)) "wf-1" None (Some mail_workflow)
    (r.1.2) (r.2)
  = (Settled (Fulfilled tt), r.1.2, r.2) /\
  RunV1.running
    (Calls.runByDefinition false mail_workflow
       (Fulfilled {| savedWorkflow := Some mail_workflow |})
       (Fulfilled (RunResponse 7)) RunV1.initial env).1.2
  = false.
Proof. by repeat split. Qed.

(** The same unguarded call sits in the [catch] block: a host function
    that throws in [notifyWorkflowError] makes the promise of the call
    reject, after the error event is appended and with [running]
    reset. *)
Lemma runById_rejects_in_catch :
  let env := env_with (window_with fickle) in
  let r := RunV2.runById false "wf-1" None (Some mail_workflow)
             RunV1.initial env in
  match r.1.1 with
  | Awaiting f =>
      let r' := RunV2.runById_resume f (Rejected unavailable)
                  (r.1.2) (r.2) in
      r'.1.1 = Rejected boom /\ RunV1.running (r'.1.2) = false /\
      kind <$> RunV1.events (r'.1.2) = [message_; error_]
  | Settled _ => False
  end.
Proof. by repeat split. Qed.

(** With nothing to show the bridge is not called. *)
Lemma v2_caught_quiet (e : Error) (workflowId : string)
    (steps : list WorkflowProgressStep) (s : RunV2.State) (env : Env.t) :
  bridge_safe steps (host env) ->
  (RunV2.finally (RunV2.catch_block e workflowId steps s env)).1.1
  = Fulfilled tt.
Proof.
  intros [->|Hp]; [done|].
  by apply (proj2 (v2_caught_state e workflowId steps s env)).
Qed.


End RunFacts.

(** ** Failures and cancellation across the hooks *)

Module HookFacts.
Import Proto Env Log WorkflowProgress Words Samples.
Import GenerationFacts GenerationLoopFacts RunFacts.

Lemma runLatest_saved_rejected (e : Error) (s : Generation.State)
    (env : Env.t) :
  Generation.runLatest_saved (Rejected e) s env
  = (Settled (Fulfilled tt),
     Generation.setEvents
       (Generation.events s ++ [failed (clock env (ticks env)) e]) s,
     (now env).2).
Proof. reflexivity. Qed.

Lemma runLatest_ran_rejected (e : Error) (s : Generation.State)
    (env : Env.t) :
  Generation.runLatest_ran (Rejected e) s env
  = (Settled (Fulfilled tt),
     Generation.setEvents
       (Generation.events s ++ [failed (clock env (ticks env)) e]) s,
     (now env).2).
Proof. reflexivity. Qed.

(** C4, as the code has it.  A failed [listPlugins] is logged to the
    console, sets the error message, clears [loading] and leaves the
    loaded plugins alone.  A failed [runWorkflow] or [updateWorkflow]
    is appended to the log as an error event, and [running] is reset.
    A failed generation stream is appended as an error event unless
    the error is named "AbortError", which is dropped.  In each case
    the promise of the call is fulfilled; for the second [runById] and
    [runByDefinition] this is stated for the calls in which the
    progress bridge has nothing to show or its host function hands
    back a promise. *)
Theorem rpc_failures_are_logged :
  (forall t e s env,
     Plugins.fetchPlugins_resume t (Rejected e) s env
     = (Fulfilled tt,
        {| Plugins.plugins := Plugins.plugins s;
           Plugins.loading := false;
           Plugins.error := Some (t "plugins.fetchError");
           Plugins.searchQuery := Plugins.searchQuery s |},
        console_error "Failed to fetch plugins:" e env)) /\
  (forall e s env,
     RunV1.runById_resume tt (Rejected e) s env
     = (Fulfilled tt,
        {| RunV1.running := false;
           RunV1.events :=
             RunV1.events s ++ [failed (clock env (ticks env)) e];
           RunV1.runRes := RunV1.runRes s |},
        (now env).2)) /\
  (forall f e s env,
     let r := RunV2.runById_resume f (Rejected e) s env in
     r.1.2 = {| RunV1.running := false;
                RunV1.events :=
                  RunV1.events s ++ [failed (clock env (ticks env)) e];
                RunV1.runRes := RunV1.runRes s |} /\
     (bridge_safe (RunV2.frame_steps f) (host env) ->
      r.1.1 = Fulfilled tt)) /\
  (forall workflow workflowId steps workflowName e s env,
     let failure :=
       {| RunV1.running := false;
          RunV1.events :=
            RunV1.events s ++ [failed (clock env (ticks env)) e];
          RunV1.runRes := RunV1.runRes s |} in
     let r1 := RunV2.runByDefinition_saved workflow steps workflowName
                 (Rejected e) s env in
     let r2 := RunV2.runByDefinition_ran workflow workflowId steps
                 (Rejected e) s env in
     r1.1.2 = failure /\ r2.1.2 = failure /\
     (bridge_safe steps (host env) ->
      r1.1.1 = Settled (Fulfilled tt) /\ r2.1.1 = Fulfilled tt)) /\
  (forall e s env,
     Generation.runLatest_saved (Rejected e) s env
     = (Settled (Fulfilled tt),
        Generation.setEvents
          (Generation.events s ++ [failed (clock env (ticks env)) e]) s,
        (now env).2) /\
     Generation.runLatest_ran (Rejected e) s env
     = (Settled (Fulfilled tt),
        Generation.setEvents
          (Generation.events s ++ [failed (clock env (ticks env)) e]) s,
        (now env).2)) /\
  (forall f e s env,
     name e <> "AbortError" ->
     Generation.start_resume f (Generation.StreamThrows e) s env
     = (Settled (Fulfilled tt),
        {| Generation.streaming := false;
           Generation.events :=
             Generation.events s ++ [failed (clock env (ticks env)) e];
           Generation.latest := Generation.latest s;
           Generation.runRes := Generation.runRes s;
           Generation.abortRef := None |},
        (now env).2)) /\
  (forall f e s env,
     name e = "AbortError" ->
     Generation.start_resume f (Generation.StreamThrows e) s env
     = (Settled (Fulfilled tt), Generation.start_finally s, env)).
Proof.
  split; [done|]. split; [exact v1_resume_rejected|].
  split.
  { intros f e s env. cbv zeta.
    split; [exact (proj1 (v2_resume_rejected_any f e s env))|].
    intros H. unfold RunV2.runById_resume. cbv zeta.
    by apply v2_caught_quiet. }
  split.
  { intros wf wid steps nm e s env. cbv zeta.
    unfold RunV2.runByDefinition_saved, RunV2.runByDefinition_ran.
    pose proof (v2_caught_state e (Proto.workflowId wf) steps s env)
      as [Hs _].
    pose proof (v2_caught_quiet e (Proto.workflowId wf) steps s env)
      as Hp.
    cbv zeta in Hs.
    destruct (RunV2.finally _) as [[pr s'] env']. simpl in *.
    split; [done|]. split; [done|]. intros H. by rewrite (Hp H). }
  split; [done|].
  split; [exact start_resume_error|exact start_resume_abort].
Qed.

Lemma rpc_failures_are_logged_witness :
  (RunV2.runById_resume
     {| RunV2.frame_workflowId := "wf-1";
        RunV2.frame_steps := parseWorkflowSteps ["mail.send"] |}
     (Rejected unavailable) RunV1.initial
     (env_with (window_with accepting))).1.1
  = Fulfilled tt /\
  Generation.start_resume {| Generation.ac := 0 |}
    (Generation.StreamThrows unavailable) Generation.initial quiet
  = (Settled (Fulfilled tt),
     {| Generation.streaming := false;
        Generation.events := [failed 1000 unavailable];
        Generation.latest := None; Generation.runRes := None;
        Generation.abortRef := None |},
     (now quiet).2).
Proof.
  destruct rpc_failures_are_logged as (_ & _ & Hrun & _ & _ & Hstream & _).
  split.
  - apply (proj2 (Hrun
             {| RunV2.frame_workflowId := "wf-1";
                RunV2.frame_steps := parseWorkflowSteps ["mail.send"] |}
             unavailable RunV1.initial
             (env_with (window_with accepting)))
             (or_intror accepting_returns_promises)).
  - apply (Hstream {| Generation.ac := 0 |} unavailable
             Generation.initial quiet).
    discriminate.
Defined.

(** C4 as stated fails for the generation stream: a stream that fails
    with an error named "AbortError" leaves no error event; its call
    settles with an empty log. *)
Lemma aborted_stream_not_logged :
  let r := Generation.start_call false "send a mail"
             [Generation.StreamThrows aborted_by_user]
             Generation.initial quiet in
  r.1.1 = Settled (Fulfilled tt) /\ Generation.events (r.1.2) = [].
Proof. by split. Qed.







End HookFacts.

(** ** The progress dots *)

Module ProgressDotsFacts.
Import Proto ProgressDots Words Samples.

Section Component.
Variables Statement Importance : Type.
Variable parseWorkflowCode : string -> ParseResult Statement.
Variable groupStatementsIntoActions :
  list Statement -> list (Action Importance).
Variable getActionColor : ActionType -> Importance -> string.

Local Abbreviation actions := (actionsOf Statement Importance
  parseWorkflowCode groupStatementsIntoActions).
Local Abbreviation view := (WorkflowProgressDots Statement Importance
  parseWorkflowCode groupStatementsIntoActions getActionColor).

Lemma view_dots (props : Props) :
  dots_of (view props)
  = imap (renderDot Importance getActionColor props
            (length (actions (latestCodeOf (workflow props)))))
         (actions (latestCodeOf (workflow props))).
Proof.
  unfold WorkflowProgressDots.
  by destruct (actions (latestCodeOf (workflow props))).
Qed.

(** C6.  When the latest entry of [workflowCode] is missing or has
    no code, or the parser reports an error or gives no body, the
    action list is empty.  Otherwise it is the grouping of the
    parsed body.  The placeholder is shown exactly when the action
    list is empty, and the view has one step dot for every action,
    in order, carrying that action's title. *)
Theorem progress_dots_follow_actions (props : Props) :
  (truthy (latestCodeOf (workflow props)) = false ->
     actions (latestCodeOf (workflow props)) = []) /\
  (forall code,
     latestCodeOf (workflow props) = Some code ->
     truthy (parseError (parseWorkflowCode code)) = true \/
     workflowBody (parseWorkflowCode code) = None ->
     actions (latestCodeOf (workflow props)) = []) /\
  (forall code body,
     latestCodeOf (workflow props) = Some code ->
     code <> "" ->
     truthy (parseError (parseWorkflowCode code)) = false ->
     workflowBody (parseWorkflowCode code) = Some body ->
     actions (latestCodeOf (workflow props))
     = groupStatementsIntoActions body) /\
  (view props = NoSteps <->
     actions (latestCodeOf (workflow props)) = []) /\
  length (dots_of (view props))
    = length (actions (latestCodeOf (workflow props))) /\
  (forall i action,
     actions (latestCodeOf (workflow props)) !! i = Some action ->
     exists dot,
       dots_of (view props) !! i = Some dot /\
       dot_index dot = i /\ dot_title dot = title action /\
       dot_icon dot
         = getActionIcon (type action)
             (if minimal props then 10 else 12)).
Proof.
  repeat match goal with |- _ /\ _ => split end.
  - unfold actionsOf. by intros ->.
  - intros code -> H. unfold actionsOf. simpl.
    destruct (bool_decide (code = "")); [done|]. simpl.
    destruct H as [-> | ->]; [done|].
    by destruct (truthy _).
  - intros code body -> Hc He Hb. unfold actionsOf. simpl.
    rewrite bool_decide_eq_false_2 by done. simpl.
    by rewrite He, Hb.
  - unfold WorkflowProgressDots.
    by destruct (actions (latestCodeOf (workflow props))).
  - rewrite view_dots. apply length_imap.
  - intros i action Hi. rewrite view_dots, list_lookup_imap, Hi.
    eexists. split; [reflexivity|]. done.
Qed.

End Component.

Lemma progress_dots_follow_actions_witness :
  actionsOf nat unit toy_parse toy_group
    (latestCodeOf (workflow mail_props))
  = toy_group [1%nat; 2%nat].
Proof.
  apply (proj1 (proj2 (proj2
           (progress_dots_follow_actions nat unit toy_parse toy_group
              toy_color mail_props)))
           "workflow()" [1%nat; 2%nat]).
  - reflexivity.
  - discriminate.
  - reflexivity.
  - reflexivity.
Defined.

Example progress_dots_titles :
  dot_title <$>
    dots_of (WorkflowProgressDots nat unit toy_parse toy_group toy_color
               mail_props)
  = ["step 1"; "step 2"].
Proof. reflexivity. Qed.

End ProgressDotsFacts.

(** ** The function list *)

Module FunctionListFacts.
Import Proto FunctionList Samples.

Lemma or_zero_id (n : N) : or_zero n = n.
Proof. unfold or_zero. destruct (N.eqb_spec n 0); congruence. Qed.

Lemma maxLevel_from (acc : N) (perms : list Permission) :
  foldl (fun max p =>
           if (max <? or_zero (permissionLevel p))%N
           then or_zero (permissionLevel p) else max) acc perms
  = N.max acc (greatest_level perms).
Proof.
  revert acc. induction perms as [|p perms IH]; intros acc; simpl.
  - unfold greatest_level. simpl. lia.
  - rewrite IH, or_zero_id.
    change (greatest_level (p :: perms))
      with (N.max (permissionLevel p) (greatest_level perms)).
    generalize (greatest_level perms) (permissionLevel p).
    unfold PermissionLevel. intros g x.
    destruct (N.ltb_spec acc x); lia.
Qed.

Lemma maxLevel_greatest (perms : list Permission) :
  maxLevel perms = greatest_level perms.
Proof. unfold maxLevel. rewrite maxLevel_from. lia. Qed.

(** [greatest_level] is the greatest level: an upper bound that is 0
    or the level of one of the permissions. *)
Lemma greatest_level_spec (perms : list Permission) :
  (forall p, p ∈ perms -> (permissionLevel p <= greatest_level perms)%N) /\
  (greatest_level perms = 0%N \/
   exists p, p ∈ perms /\ permissionLevel p = greatest_level perms).
Proof.
  induction perms as [|q perms [IHb IHa]].
  - split; [|by left]. intros p Hp. by apply elem_of_nil in Hp.
  - change (greatest_level (q :: perms))
      with (N.max (permissionLevel q) (greatest_level perms)).
    split.
    + intros p [->|Hp]%elem_of_cons; [apply N.le_max_l|].
      etrans; [apply (IHb p Hp)|apply N.le_max_r].
    + destruct (N.max_spec (permissionLevel q) (greatest_level perms))
        as [[_ ->]|[_ ->]].
      * destruct IHa as [->|(p & Hp & <-)]; [by left|].
        right. exists p. split; [by apply elem_of_cons; right|done].
      * right. exists q. split; [apply elem_of_cons; by left|done].
Qed.

(** The inner loop over the functions of one package. *)
Lemma inner_loop_lookup (pkg : PluginPackage) (funcs : list PluginFunction)
    (m : gmap string (PluginFunction * PluginPackage)) (id : string) :
  match foldl (fun m func => <[functionId func := (func, pkg)]> m) m funcs
        !! id with
  | Some (func, pkg') =>
      m !! id = Some (func, pkg') \/
      (func ∈ funcs /\ functionId func = id /\ pkg' = pkg)
  | None => m !! id = None /\ forall func, func ∈ funcs -> functionId func <> id
  end.
Proof.
  revert m. induction funcs as [|f funcs IH]; intros m; simpl.
  - destruct (m !! id) as [[func pkg']|]; [by left|].
    split; [done|]. intros func Hf. by apply elem_of_nil in Hf.
  - specialize (IH (<[functionId f := (f, pkg)]> m)).
    destruct (foldl _ _ funcs !! id) as [[func pkg']|].
    + destruct IH as [Hm|(Hin & Hid & Hp)].
      * destruct (decide (functionId f = id)) as [Heq|Hne].
        -- rewrite Heq, lookup_insert_eq in Hm. injection Hm as <- <-.
           right. split; [apply elem_of_cons; by left|done].
        -- rewrite lookup_insert_ne in Hm by done. by left.
      * right. split; [apply elem_of_cons; by right|done].
    + destruct IH as [Hm Hnone].
      destruct (decide (functionId f = id)) as [Heq|Hne].
      * by rewrite Heq, lookup_insert_eq in Hm.
      * rewrite lookup_insert_ne in Hm by done. split; [done|].
        intros func [->|Hin]%elem_of_cons; [done|]. by apply Hnone.
Qed.

(** The outer loop over the packages. *)
Lemma outer_loop_lookup (packages : list PluginPackage)
    (m : gmap string (PluginFunction * PluginPackage)) (id : string) :
  match foldl (fun m pkg =>
                 foldl (fun m func => <[functionId func := (func, pkg)]> m)
                       m (functions pkg)) m packages !! id with
  | Some (func, pkg) =>
      m !! id = Some (func, pkg) \/ declared packages id func pkg
  | None =>
      m !! id = None /\ forall func pkg, ~ declared packages id func pkg
  end.
Proof.
  revert m. induction packages as [|q packages IH]; intros m; simpl.
  - destruct (m !! id) as [[func pkg]|]; [by left|].
    split; [done|]. intros func pkg (Hp & _). by apply elem_of_nil in Hp.
  - specialize (IH (foldl (fun m func => <[functionId func := (func, q)]> m)
                      m (functions q))).
    pose proof (inner_loop_lookup q (functions q) m id) as Hin.
    destruct (foldl _ _ packages !! id) as [[func pkg]|].
    + destruct IH as [Hm|(Hp & Hf & Hid)].
      * rewrite Hm in Hin. destruct Hin as [Hm'|(Hf & Hid & ->)];
          [by left|].
        right. split; [apply elem_of_cons; by left|done].
      * right. split; [apply elem_of_cons; by right|done].
    + destruct IH as [Hm Hnone]. rewrite Hm in Hin.
      destruct Hin as [Hm' Hnone']. split; [done|].
      intros func pkg ([->|Hp]%elem_of_cons & Hf & Hid).
      * by apply (Hnone' func).
      * by apply (Hnone func pkg).
Qed.

Lemma functionMapOf_lookup (packages : list PluginPackage) (id : string) :
  match functionMapOf packages !! id with
  | Some (func, pkg) => declared packages id func pkg
  | None => forall func pkg, ~ declared packages id func pkg
  end.
Proof.
  pose proof (outer_loop_lookup packages ∅ id) as H.
  unfold functionMapOf.
  destruct (foldl _ _ packages !! id) as [[func pkg]|].
  - destruct H as [H|H]; [by rewrite lookup_empty in H|done].
  - by destruct H.
Qed.

(** C10.  For the latest entry of [workflowCode], the result has one
    entry for each listed function id, in order, carrying that id.
    When the id names a function of one of the entry's packages, the
    entry has the name and description of such a function, the name
    of its package, and the greatest level among its permissions (0
    when it has none).  When it names none, the entry has as name the
    id with every underscore replaced by a space, an empty description,
    the level UNSPECIFIED and no package name. *)
Theorem extractFunctionInfo_resolves (UNSPECIFIED : PermissionLevel)
    (workflow : Workflow) (latest : WorkflowCode) :
  latestCode workflow = Some latest ->
  length (extractFunctionInfo UNSPECIFIED workflow)
    = length (pluginFunctionIds latest) /\
  forall i id,
    pluginFunctionIds latest !! i = Some id ->
    exists info,
      extractFunctionInfo UNSPECIFIED workflow !! i = Some info /\
      info_functionId info = id /\
      ((exists func pkg, declared (pluginPackages latest) id func pkg) ->
       exists func pkg,
         declared (pluginPackages latest) id func pkg /\
         info_functionName info = functionName func /\
         info_description info = description func /\
         info_packageName info = Some (packageName pkg) /\
         info_permissionLevel info = greatest_level (permissions func)) /\
      ((forall func pkg, ~ declared (pluginPackages latest) id func pkg) ->
       SpecWords.spaced id (info_functionName info) /\
       info_description info = "" /\
       info_permissionLevel info = UNSPECIFIED /\
       info_packageName info = None).
Proof.
  intros Hl. unfold extractFunctionInfo. rewrite Hl. split.
  - apply length_fmap.
  - intros i id Hi. rewrite list_lookup_fmap, Hi. simpl.
    eexists. split; [reflexivity|].
    pose proof (functionMapOf_lookup (pluginPackages latest) id) as H.
    unfold resolve.
    destruct (functionMapOf (pluginPackages latest) !! id)
      as [[func pkg]|]; simpl.
    + split; [done|]. split.
      * intros _. exists func, pkg.
        by rewrite maxLevel_greatest.
      * intros Hnone. by destruct (Hnone func pkg).
    + split; [done|]. split.
      * intros (func & pkg & Hd). by destruct (H func pkg).
      * intros _. split; [|done].
        apply SpecWordsFacts.replace_underscores_spaced.
Qed.

Lemma extractFunctionInfo_resolves_witness :
  exists declared_one fallback,
    extractFunctionInfo 0%N mail_workflow = [declared_one; fallback] /\
    info_functionId declared_one = "mail.send" /\
    info_functionName declared_one = "Send mail" /\
    info_permissionLevel declared_one = 3%N /\
    info_functionId fallback = "read_file" /\
    info_functionName fallback = "read file" /\
    info_description fallback = "" /\
    info_permissionLevel fallback = 0%N /\
    info_packageName fallback = None.
Proof.
  destruct (extractFunctionInfo_resolves 0%N mail_workflow mail_code eq_refl)
    as [Hlen Hat].
  destruct (Hat 0%nat "mail.send" eq_refl) as (one & H0 & Hid0 & _).
  destruct (Hat 1%nat "read_file" eq_refl)
    as (two & H1 & Hid1 & _ & Hnone).
  injection H0 as H0. injection H1 as H1.
  exists one, two. split; [by rewrite <- H0, <- H1|].
  split; [exact Hid0|]. split; [by rewrite <- H0|].
  split; [by rewrite <- H0|]. split; [exact Hid1|].
  split; [by rewrite <- H1|].
  assert (forall func pkg,
            ~ declared (pluginPackages mail_code) "read_file" func pkg)
    as Hfree.
  { intros func pkg (Hp & Hf & Hi).
    apply list_elem_of_singleton in Hp as ->.
    apply list_elem_of_singleton in Hf as ->. discriminate. }
  destruct (Hnone Hfree) as (_ & Hd & Hl & Hp).
  split; [exact Hd|]. split; [exact Hl|exact Hp].
Defined.

Example extractFunctionInfo_mail :
  (fun i => (info_functionName i, info_permissionLevel i,
             info_packageName i))
    <$> extractFunctionInfo 0%N mail_workflow
  = [("Send mail", 3%N, Some "Mail"); ("read file", 0%N, None)].
Proof. vm_compute. reflexivity. Qed.

End FunctionListFacts.

(** ** More of JavaScript *)

Module JsMoreFacts.
Import JsMore.

Lemma digit_of_pretty_char (d : N) :
  (d < 10)%N -> digit_of (pretty_N_char d) = Some (Z.of_N d).
Proof.
  intros H. rewrite <- (N2Nat.id d).
  assert (N.to_nat d < 10)%nat as Hn by lia.
  destruct (N.to_nat d) as [|[|[|[|[|[|[|[|[|[|n]]]]]]]]]];
    try reflexivity.
  lia.
Qed.

(** Reading back the digits [pretty] writes. *)
Lemma digits_from_pretty_go (x : N) (s : string) :
  digits_from 0 (pretty_N_go x s) = digits_from (Z.of_N x) s.
Proof.
  revert s.
  induction (N.lt_wf_0 x) as [x _ IH]; intros s.
  destruct (decide (0 < x)%N) as [Hx|Hx].
  - rewrite pretty_N_go_step by done.
    rewrite IH by (apply N.div_lt; lia).
    simpl. rewrite digit_of_pretty_char by (apply N.mod_lt; lia).
    f_equal. rewrite N2Z.inj_div, N2Z.inj_mod.
    pose proof (Z.div_mod (Z.of_N x) 10). lia.
  - assert (x = 0%N) as -> by lia. done.
Qed.

(** Every character [pretty] writes for a digit is a digit. *)
Lemma pretty_char_digit (d : N) :
  exists v, digit_of (pretty_N_char d) = Some v /\
            is_ws (pretty_N_char d) = false /\
            Ascii.eqb (pretty_N_char d) "-"%char = false /\
            Ascii.eqb (pretty_N_char d) "+"%char = false.
Proof.
  unfold pretty_N_char. repeat case_match; by eexists.
Qed.

Lemma pretty_go_head (x : N) (s : string) :
  (0 < x)%N -> exists d rest, pretty_N_go x s = String (pretty_N_char d) rest.
Proof.
  revert s. induction (N.lt_wf_0 x) as [x _ IH]; intros s Hx.
  rewrite pretty_N_go_step by done.
  destruct (N.eq_0_gt_0_cases (x `div` 10)) as [Hq|Hq].
  - rewrite Hq, pretty_N_go_0. eauto.
  - apply IH; [apply N.div_lt; lia|done].
Qed.

Lemma unsigned_pretty (x : N) : unsigned (pretty x) = Some (Z.of_N x).
Proof.
  unfold pretty, pretty_N. case_decide as Hx; [by subst|].
  destruct (pretty_go_head x "") as (d & rest & Hd); [lia|].
  pose proof (digits_from_pretty_go x "") as Hv.
  rewrite Hd in *. unfold unsigned.
  destruct (pretty_char_digit d) as (v & -> & _). by rewrite Hv.
Qed.

Lemma pretty_head_plain (x : N) :
  exists c rest, pretty x = String c rest /\ is_ws c = false /\
                 Ascii.eqb c "-"%char = false /\ Ascii.eqb c "+"%char = false.
Proof.
  unfold pretty, pretty_N. case_decide as Hx; [by eexists _, _|].
  destruct (pretty_go_head x "") as (d & rest & Hd); [lia|].
  destruct (pretty_char_digit d) as (v & _ & ? & ? & ?).
  by eexists _, _.
Qed.

(** [parseInt] reads back what [toString] writes, for every integer. *)
Lemma parseInt_toString (n : Z) : parseInt (toString n) = Some n.
Proof.
  unfold toString, pretty, pretty_Z, parseInt.
  destruct n as [|p|p].
  - reflexivity.
  - change (pretty p) with (pretty (N.pos p)).
    destruct (pretty_head_plain (N.pos p)) as (c & rest & Hc & Hw & Hm & Hp).
    pose proof (unsigned_pretty (N.pos p)) as Hu.
    rewrite Hc in *. simpl. rewrite Hw, Hm, Hp. exact Hu.
  - change (pretty p) with (pretty (N.pos p)).
    change ("-" +:+ pretty (N.pos p)) with (String "-"%char (pretty (N.pos p))).
    simpl. by rewrite unsigned_pretty.
Qed.

Lemma toString_nonempty (n : Z) : toString n <> "".
Proof.
  intros H. pose proof (parseInt_toString n) as Hp. by rewrite H in Hp.
Qed.

(** [slice] with indices inside the conventions of [take] and [drop]. *)
Lemma slice_take_drop {A} (l : list A) (start count : Z) :
  0 <= start -> 0 <= count ->
  slice l start (start + count)
  = take (Z.to_nat count) (drop (Z.to_nat start) l).
Proof.
  intros Hs Hc. unfold slice.
  rewrite !(proj2 (Z.ltb_ge _ _)) by lia.
  destruct (decide (Z.of_nat (length l) <= start)) as [Hge|Hlt].
  - rewrite !drop_ge by lia. by rewrite !take_nil.
  - rewrite (Z.min_l start) by lia.
    destruct (decide (start + count <= Z.of_nat (length l))) as [Hin|Hout].
    + rewrite Z.min_l by lia. f_equal. lia.
    + rewrite Z.min_r by lia.
      rewrite !take_ge; [done|rewrite length_drop; lia..].
Qed.

(** Any slice is a run of neighbours of the array. *)
Lemma slice_segment {A} (l : list A) (start end_ : Z) :
  exists before after, l = before ++ slice l start end_ ++ after.
Proof.
  unfold slice. cbv zeta.
  match goal with
  | |- context [take ?n (drop ?from l)] =>
      exists (take from l), (drop n (drop from l));
      by rewrite (take_drop n (drop from l)), (take_drop from l)
  end.
Qed.

End JsMoreFacts.

(** ** The mock plugin service *)

Module MockServerFacts.
Import Proto JsMore MockServer JsMoreFacts Samples.

(** The page size the handler works with. *)
Lemma handler_page (all : list PluginPackage) (size start : Z)
    (token : string) :
  0 <= size -> 0 <= start ->
  token = "" /\ start = 0 \/ token = toString start ->
  let count := if size =? 0 then 10 else size in
  listPlugins all {| pageSize := size; pageToken := token |}
  = {| plugins := take (Z.to_nat count) (drop (Z.to_nat start) all);
       nextPageToken :=
         if start + count <? Z.of_nat (length all)
         then toString (start + count) else "" |}.
Proof.
  intros Hsize Hstart Htok count. unfold listPlugins. simpl. fold count.
  assert (0 <= count) by (unfold count; destruct (Z.eqb_spec size 0); lia).
  destruct Htok as [[-> ->]| ->].
  - simpl. by rewrite slice_take_drop by lia.
  - rewrite bool_decide_eq_false_2 by apply toString_nonempty.
    rewrite parseInt_toString. by rewrite slice_take_drop by lia.
Qed.

Lemma follow_from (all : list PluginPackage) (size : Z) (fuel : nat)
    (start : Z) (token : string) :
  0 <= size -> 0 <= start ->
  token = "" /\ start = 0 \/ token = toString start ->
  Z.of_nat (length all) - start < Z.of_nat fuel -> (0 < fuel)%nat ->
  concat (follow all size fuel token) = drop (Z.to_nat start) all.
Proof.
  intros Hsize. revert start token.
  induction fuel as [|fuel IH]; intros start token Hstart Htok Hfuel Hpos;
    [lia|].
  simpl. rewrite (handler_page all size start token) by done. simpl.
  set (count := if size =? 0 then 10 else size).
  assert (0 < count) by (unfold count; destruct (Z.eqb_spec size 0); lia).
  destruct (Z.ltb_spec (start + count) (Z.of_nat (length all))) as [Hlt|Hge].
  - rewrite bool_decide_eq_false_2 by apply toString_nonempty.
    rewrite (IH (start + count)) by (auto; lia).
    replace (Z.to_nat (start + count))
      with (Z.to_nat start + Z.to_nat count)%nat by lia.
    by rewrite <- drop_drop, take_drop.
  - simpl. rewrite app_nil_r. apply take_ge. rewrite length_drop. lia.
Qed.

(** X1.  A client that starts without a token and follows the page
    tokens of the mock [listPlugins] receives every plugin exactly once
    and in order, whatever non-negative page size it asks for (0 stands
    for 10); it needs no more requests than there are plugins, plus
    one. *)
Theorem follow_covers (all : list PluginPackage) (size : Z) :
  0 <= size ->
  concat (follow all size (S (length all)) "") = all.
Proof.
  intros Hsize.
  rewrite (follow_from all size (S (length all)) 0 "") by (auto; lia).
  done.
Qed.

Lemma follow_covers_witness :
  concat (follow [mail_package; mail_package; mail_package] 2 4 "")
  = [mail_package; mail_package; mail_package].
Proof.
  apply (follow_covers [mail_package; mail_package; mail_package] 2).
  lia.
Defined.

(** X2.  For a positive page size and a token the handler made itself
    (or none), the page holds at most that many plugins, namely the
    ones from the token's index on; the next token is empty exactly
    when the page reaches the end of the list, and otherwise reads back
    as the index of the first plugin not yet returned. *)
Theorem page_bounds (all : list PluginPackage) (size start : Z)
    (token : string) :
  0 < size -> 0 <= start ->
  token = "" /\ start = 0 \/ token = toString start ->
  let r := listPlugins all {| pageSize := size; pageToken := token |} in
  plugins r = take (Z.to_nat size) (drop (Z.to_nat start) all) /\
  (Z.of_nat (length (plugins r)) <= size) /\
  (nextPageToken r = "" <-> Z.of_nat (length all) <= start + size) /\
  (nextPageToken r <> "" ->
   parseInt (nextPageToken r) = Some (start + size)).
Proof.
  intros Hsize Hstart Htok r. subst r.
  rewrite (handler_page all size start token) by (done || lia).
  rewrite (proj2 (Z.eqb_neq size 0)) by lia. simpl.
  split; [done|]. split; [rewrite length_take; lia|].
  destruct (Z.ltb_spec (start + size) (Z.of_nat (length all))) as [Hlt|Hge].
  - split; [|intros _; apply parseInt_toString].
    split; [|lia]. intros H. by apply toString_nonempty in H.
  - split; [by split|done].
Qed.

Lemma page_bounds_witness :
  let r := listPlugins [mail_package; mail_package; mail_package]
             {| pageSize := 2; pageToken := "2" |} in
  plugins r = [mail_package] /\
  (Z.of_nat (length (plugins r)) <= 2) /\
  (nextPageToken r = "" <-> 3 <= 2 + 2) /\
  (nextPageToken r <> "" -> parseInt (nextPageToken r) = Some (2 + 2)).
Proof.
  apply (page_bounds [mail_package; mail_package; mail_package] 2 2 "2");
    [lia|lia|by right].
Defined.

(** X3.  Whatever the request (a negative page size, a token that is
    no number or points outside the list), the page of the mock
    [listPlugins] is a run of neighbouring plugins of the fixture, in
    their order. *)
Theorem page_is_segment (all : list PluginPackage)
    (request : ListPluginsRequest) :
  exists before after,
    all = before ++ plugins (listPlugins all request) ++ after.
Proof.
  unfold listPlugins. cbv zeta.
  destruct (if bool_decide _ then _ else _) as [start|]; simpl;
    apply slice_segment.
Qed.

(** X5.  A negative page size is taken as an end index counted from the
    end of the list: without a token the handler returns all plugins
    but the last [-size] ones, and hands out the page size itself, a
    negative number, as next token. *)
Theorem negative_page_size (all : list PluginPackage) (size : Z) :
  size < 0 ->
  listPlugins all {| pageSize := size; pageToken := "" |}
  = {| plugins := take (Z.to_nat (Z.of_nat (length all) + size)) all;
       nextPageToken := toString size |}.
Proof.
  intros Hs. unfold listPlugins. cbn [pageSize pageToken].
  rewrite (proj2 (Z.eqb_neq size 0)) by lia.
  rewrite bool_decide_eq_true_2 by done. rewrite Z.add_0_l.
  rewrite (proj2 (Z.ltb_lt size _)) by lia.
  f_equal. unfold slice. cbv zeta.
  rewrite (proj2 (Z.ltb_lt size 0)) by lia.
  rewrite (proj2 (Z.ltb_ge 0 0)) by lia.
  rewrite Z.min_l by lia. rewrite Z.sub_0_r. simpl.
  destruct (Z.max_spec (Z.of_nat (length all) + size) 0) as [[? ->]|[? ->]].
  - replace (Z.to_nat (Z.of_nat (length all) + size)) with O by lia. done.
  - done.
Qed.

Lemma negative_page_size_witness :
  listPlugins [mail_package; mail_package]
    {| pageSize := -1; pageToken := "" |}
  = {| plugins := [mail_package]; nextPageToken := "-1" |}.
Proof.
  apply (negative_page_size [mail_package; mail_package] (-1)). lia.
Defined.

End MockServerFacts.

(** ** Searching in strings *)

Module SearchFacts.
Import JsMore MoreWords.

Lemma app_cons (c : ascii) (a b : string) :
  String c a +:+ b = String c (a +:+ b).
Proof. reflexivity. Qed.

Lemma app_nil (b : string) : "" +:+ b = b.
Proof. reflexivity. Qed.

Lemma app_assoc_s (a b c : string) : (a +:+ b) +:+ c = a +:+ b +:+ c.
Proof.
  induction a as [|x a IH]; [done|]. by rewrite !app_cons, IH.
Qed.

Lemma startsWith_spec (s q : string) :
  startsWith s q = true <-> exists b, s = q +:+ b.
Proof.
  revert s. induction q as [|c q IH]; intros s; simpl.
  - destruct s; (split; [by eexists|done]).
  - destruct s as [|d s].
    + split; [done|]. by intros [b Hb].
    + change (startsWith (String d s) (String c q))
        with (Ascii.eqb c d && startsWith s q).
      rewrite andb_true_iff, IH. split.
      * intros [Hc [b ->]]. apply Ascii.eqb_eq in Hc as ->. by exists b.
      * intros [b Hb]. rewrite app_cons in Hb. injection Hb as -> ->.
        split; [apply Ascii.eqb_refl|eauto].
Qed.

(** [includes] finds [q] exactly when [q] sits somewhere in [s]. *)
Lemma includes_spec (s q : string) :
  includes s q = true <-> exists a b, s = a +:+ q +:+ b.
Proof.
  induction s as [|d s IH].
  - change (includes "" q) with (startsWith "" q || false).
    rewrite orb_false_r, startsWith_spec. split.
    + intros [b Hb]. by exists "", b.
    + intros (a & b & H). destruct a; [by exists b|done].
  - change (includes (String d s) q)
      with (startsWith (String d s) q || includes s q).
    rewrite orb_true_iff, startsWith_spec, IH. split.
    + intros [[b Hb]|(a & b & ->)]; [by exists "", b|].
      by exists (String d a), b.
    + intros (a & b & H). destruct a as [|x a].
      * left. by exists b.
      * right. rewrite app_cons in H. injection H as -> ->. eauto.
Qed.

Lemma includes_trans (s q r : string) :
  includes s q = true -> includes q r = true -> includes s r = true.
Proof.
  rewrite !includes_spec. intros (a & b & ->) (c & d & ->).
  exists (a +:+ c), (d +:+ b). by rewrite !app_assoc_s.
Qed.

Lemma includes_refl (s : string) : includes s s = true.
Proof.
  apply includes_spec. exists "", "". rewrite app_nil.
  induction s as [|c s IH]; [done|]. by rewrite app_cons, <- IH.
Qed.

Lemma is_ws_lower (c : ascii) : is_ws (lower_unit c) = is_ws c.
Proof. by destruct c as [[] [] [] [] [] [] [] []]. Qed.

Lemma lower_unit_idem (c : ascii) :
  lower_unit (lower_unit c) = lower_unit c.
Proof. by destruct c as [[] [] [] [] [] [] [] []]. Qed.

Lemma toLowerCase_idem (s : string) :
  toLowerCase (toLowerCase s) = toLowerCase s.
Proof.
  induction s as [|c s IH]; [done|]. simpl. by rewrite lower_unit_idem, IH.
Qed.

Lemma all_ws_lower (s : string) : all_ws (toLowerCase s) = all_ws s.
Proof.
  induction s as [|c s IH]; [done|]. simpl. by rewrite is_ws_lower, IH.
Qed.

Lemma trim_start_empty (s : string) :
  trim_start s = "" <-> all_ws s = true.
Proof.
  induction s as [|c s IH]; [done|]. simpl.
  destruct (is_ws c); simpl; [done|]. split; discriminate.
Qed.

Lemma all_ws_trim_start (s : string) :
  all_ws (trim_start s) = all_ws s.
Proof.
  induction s as [|c s IH]; [done|]. simpl.
  destruct (is_ws c) eqn:Hc; simpl; [done|]. by rewrite Hc.
Qed.

Lemma rev_app_empty (s acc : string) :
  String.rev_app s acc = "" <-> s = "" /\ acc = "".
Proof.
  revert acc. induction s as [|c s IH]; intros acc; simpl.
  - split; [by intros ->|by intros [_ ->]].
  - rewrite IH. split; [by intros [_ ?]|by intros [? _]].
Qed.

Lemma all_ws_rev_app (s acc : string) :
  all_ws (String.rev_app s acc) = all_ws s && all_ws acc.
Proof.
  revert acc. induction s as [|c s IH]; intros acc; simpl; [done|].
  rewrite IH. simpl. by destruct (is_ws c), (all_ws s).
Qed.

(** [trim] empties exactly the strings of white space. *)
Lemma trim_empty (s : string) : trim s = "" <-> all_ws s = true.
Proof.
  unfold trim, String.rev. rewrite rev_app_empty, trim_start_empty.
  rewrite all_ws_rev_app, all_ws_trim_start. simpl.
  rewrite andb_true_r. split; [by intros [? _]|by split].
Qed.

Lemma trim_lower_empty (s : string) :
  trim (toLowerCase s) = "" <-> trim s = "".
Proof. by rewrite !trim_empty, all_ws_lower. Qed.

End SearchFacts.

(** ** The plugin panel *)

Module PluginsViewFacts.
Import Proto JsMore MoreWords PluginsView SearchFacts JsMoreFacts Samples.

Lemma all_ws_app (a b : string) : all_ws (a +:+ b) = all_ws a && all_ws b.
Proof.
  induction a as [|c a IH]; [done|].
  rewrite app_cons. simpl. by rewrite IH, andb_assoc.
Qed.

Lemma includes_all_ws (s q : string) :
  includes s q = true -> all_ws s = true -> all_ws q = true.
Proof.
  rewrite includes_spec. intros (a & b & ->).
  rewrite !all_ws_app, !andb_true_iff. by intros (_ & ? & _).
Qed.

Lemma filter_filter_implied {A} (f g : A -> bool) (l : list A) :
  (forall x, f x = true -> g x = true) ->
  List.filter f (List.filter g l) = List.filter f l.
Proof.
  intros H. induction l as [|x l IH]; [done|]. simpl.
  destruct (g x) eqn:Hg; simpl.
  - by rewrite IH.
  - destruct (f x) eqn:Hf; [|done]. by rewrite (H x Hf) in Hg.
Qed.

Section Panel.
Variable descriptionOf : PluginPackage -> string.

Local Abbreviation filtered := (filteredPlugins descriptionOf).
Local Abbreviation panel := (PluginsPanel descriptionOf).

Lemma matches_narrower (q1 q2 : string) (p : PluginPackage) :
  includes q2 q1 = true ->
  matches descriptionOf q2 p = true -> matches descriptionOf q1 p = true.
Proof.
  intros Hq. unfold matches. rewrite !orb_true_iff.
  intros [[H|H]|H]; eauto using includes_trans.
Qed.

(** X6.  The search box ignores the case of what is typed: two queries
    that agree once lowered give the same list. *)
Theorem search_ignores_case (plugins : list PluginPackage)
    (q1 q2 : string) :
  toLowerCase q1 = toLowerCase q2 ->
  filtered plugins q1 = filtered plugins q2.
Proof.
  intros H. unfold filteredPlugins. cbv zeta. rewrite H.
  destruct (decide (trim q2 = "")) as [Hb|Hb].
  - rewrite !bool_decide_eq_true_2; try done.
    apply trim_lower_empty. rewrite H. by apply trim_lower_empty.
  - rewrite !bool_decide_eq_false_2; try done.
    intros H1. apply Hb, trim_lower_empty. rewrite <- H.
    by apply trim_lower_empty.
Qed.

(** X7.  Typing more never adds results.  When the lowered query [q1]
    occurs in the lowered query [q2] and [q1] is not blank, searching
    for [q2] among the results for [q1] gives what searching for [q2]
    among all plugins gives. *)
Theorem search_refines (plugins : list PluginPackage) (q1 q2 : string) :
  trim q1 <> "" ->
  includes (toLowerCase q2) (toLowerCase q1) = true ->
  filtered (filtered plugins q1) q2 = filtered plugins q2.
Proof.
  intros Hq1 Hinc. unfold filteredPlugins. cbv zeta.
  rewrite (bool_decide_eq_false_2 (trim q1 = "")) by done.
  assert (trim q2 <> "") as Hq2.
  { intros Hb. apply Hq1. apply trim_lower_empty, trim_empty.
    eapply includes_all_ws; [exact Hinc|].
    by apply trim_empty, trim_lower_empty. }
  rewrite !(bool_decide_eq_false_2 (trim q2 = "")) by done.
  apply filter_filter_implied. intros p. by apply matches_narrower.
Qed.

(** X8.  While [fetchPlugins] waits the panel shows the spinner.  After
    a failure it shows the translated error message, whatever plugins
    an earlier fetch had loaded, as long as that message is not empty;
    with an empty message the failure is not shown at all.  After a
    success it shows the plugins of the response that match the search
    box, and an error left by an earlier failure is gone. *)
Theorem panel_follows_fetch (t : string -> string) (s : Plugins.State)
    (env : Env.t) (e : Error) (response : Proto.ListPluginsResponse) :
  let started := Plugins.fetchPlugins s env in
  let failed :=
    Plugins.fetchPlugins_resume t (Rejected e) (started.1.2) (started.2) in
  let loaded :=
    Plugins.fetchPlugins_resume t (Fulfilled response)
      (started.1.2) (started.2) in
  panel t (started.1.2) = Spinner (t "common.loading") /\
  (t "plugins.fetchError" <> "" ->
   panel t (failed.1.2)
   = FetchError (t "plugins.fetchErrorTitle") (t "plugins.fetchError")) /\
  (t "plugins.fetchError" = "" ->
   panel t (failed.1.2)
   = match filtered (Plugins.plugins s) (Plugins.searchQuery s) with
     | [] => NoPlugins (t "plugins.emptyTitle") (t "plugins.emptyDescription")
     | items => PluginItems items
     end) /\
  panel t (loaded.1.2)
  = match filtered (listedPlugins response) (Plugins.searchQuery s) with
    | [] => NoPlugins (t "plugins.emptyTitle") (t "plugins.emptyDescription")
    | items => PluginItems items
    end.
Proof.
  cbv zeta. unfold PluginsPanel. simpl.
  split; [done|]. split; [|split; [|done]].
  - intros H. by rewrite bool_decide_eq_false_2.
  - intros ->. done.
Qed.

End Panel.

Lemma search_ignores_case_witness :
  filteredPlugins (fun _ => "") [mail_package] "MAIL"
  = filteredPlugins (fun _ => "") [mail_package] "mail".
Proof.
  apply (search_ignores_case (fun _ => "") [mail_package] "MAIL" "mail"). reflexivity.
Defined.

Lemma search_refines_witness :
  filteredPlugins (fun _ => "")
    (filteredPlugins (fun _ => "") [mail_package] "ma") "Mail"
  = filteredPlugins (fun _ => "") [mail_package] "Mail".
Proof.
  apply (search_refines (fun _ => "") [mail_package] "ma" "Mail");
    [discriminate|reflexivity].
Defined.

Lemma panel_follows_fetch_witness :
  PluginsPanel (fun _ => "") (fun k => k)
    (Plugins.fetchPlugins_resume (fun k => k) (Rejected unavailable)
       (Plugins.fetchPlugins Plugins.initial quiet).1.2
       (Plugins.fetchPlugins Plugins.initial quiet).2).1.2
  = FetchError "plugins.fetchErrorTitle" "plugins.fetchError".
Proof.
  apply (proj1 (proj2 (panel_follows_fetch (fun _ => "") (fun k => k)
                         Plugins.initial quiet unavailable
                         {| listedPlugins := [] |}))).
  discriminate.
Defined.


(** X9.  Fetched from the mock service, the panel ends up with the
    first hundred plugins of the fixture and no more, with [loading]
    and [error] cleared: it sends no page token and drops the one it
    gets. *)
Theorem panel_shows_first_hundred (all : list PluginPackage)
    (t : string -> string) (s : Plugins.State) (env : Env.t) :
  let r := Wire.fetch_from_mock all t s env in
  r.1.1 = Fulfilled tt /\
  Plugins.plugins (r.1.2) = take 100 all /\
  Plugins.loading (r.1.2) = false /\ Plugins.error (r.1.2) = None.
Proof.
  pose proof (MockServerFacts.handler_page all 100 0 "") as Hpage.
  cbv zeta in Hpage. rewrite drop_0 in Hpage.
  unfold Wire.fetch_from_mock, Plugins.fetchPlugins. cbv zeta.
  unfold Env.issue. cbn [Env.issued]. rewrite last_snoc.
  cbn [mbind option_bind Wire.serve]. rewrite Hpage by (auto; lia).
  done.
Qed.

(** X10.  The function badges of a plugin card account for every
    function: the names shown and the number behind the plus sign add
    up to the number of functions, and the plus badge is there exactly
    when the plugin has more than three. *)
Theorem function_badges_add_up (plugin : PluginPackage) :
  let badges := functionBadges plugin in
  Z.of_nat (length (badges.1)) + default 0 (badges.2)
    = Z.of_nat (length (functions plugin)) /\
  badges.1 = functionName <$> take 3 (functions plugin) /\
  (badges.2 = None <-> (length (functions plugin) <= 3)%nat).
Proof.
  pose proof (slice_take_drop (functions plugin) 0 3) as Hs.
  change (0 + 3) with 3 in Hs. change (Z.to_nat 3) with 3%nat in Hs.
  change (Z.to_nat 0) with 0%nat in Hs. rewrite drop_0 in Hs.
  unfold functionBadges. cbv zeta. cbn [fst snd].
  rewrite Hs by lia. rewrite length_fmap, length_take.
  destruct (Z.ltb_spec 3 (Z.of_nat (length (functions plugin))));
    cbn [from_option id].
  - split; [lia|]. split; [done|]. split; [done|lia].
  - split; [lia|]. split; [done|]. split; [lia|done].
Qed.

End PluginsViewFacts.

(** ** Whole calls of the generation hook *)

Module GenerationCallFacts.
Import Proto Env Log Generation GenerationLoop Words MoreWords Samples.
Import GenerationFacts GenerationLoopFacts.

(** The messages of a stream, as [feed] logs and keeps them. *)
Lemma feed_messages (f : StartFrame) (msgs : list GenerateWorkflowResponse)
    (rest : list StreamItem) (s : State) (env : Env.t) :
  exists s' env',
    feed f ((Yield <$> msgs) ++ rest) s env = feed f rest s' env' /\
    kind <$> events s' = (kind <$> events s) ++ (const message_ <$> msgs) /\
    payload <$> events s'
      = (payload <$> events s) ++ ((fun m => Some (generated m)) <$> msgs) /\
    latest s' = match last msgs with Some m => Some m | None => latest s end /\
    runRes s' = runRes s /\
    streaming s' = streaming s /\ abortRef s' = abortRef s /\
    issued env' = issued env /\ aborted env' = aborted env.
Proof.
  revert s env. induction msgs as [|msg msgs IH]; intros s env.
  - exists s, env. simpl. by rewrite !app_nil_r.
  - simpl.
    edestruct IH as (s' & env' & -> & Hk & Hp & Hl & Hr & Hs & Ha & Hi & Hb).
    exists s', env'. split; [done|].
    simpl in Hk, Hp, Hl, Hr, Hs, Ha, Hi, Hb.
    rewrite Hk, Hp, Hl, Hr, Hs, Ha, Hi, Hb.
    rewrite !fmap_app, <- !app_assoc.
    split; [done|]. split; [done|]. split; [|done].
    destruct msgs as [|m ms]; [done|].
    change (last (msg :: m :: ms)) with (last (m :: ms)).
    destruct (last (m :: ms)) eqn:E; [done|].
    by apply last_None in E.
Qed.

(** X11.  A [start] call with a prompt that is not blank, whose stream
    gives [msgs] and then closes (it ends, or it throws), settles
    without an error for the caller.  It has issued one
    [generateWorkflow] request; the log, emptied at the start, holds one
    message event per message, in order, then a done event when the
    stream ended, an error event when it threw, and nothing when the
    error is named "AbortError"; [latest] is the last message (none if
    there was none), [runRes] is cleared, [streaming] is false again. *)
Theorem stream_to_the_end (prompt : string)
    (msgs : list GenerateWorkflowResponse) (closing : StreamItem)
    (s0 : State) (e0 : Env.t) :
  trim prompt <> "" ->
  (forall msg, closing <> Yield msg) ->
  let r := start_call false prompt ((Yield <$> msgs) ++ [closing]) s0 e0 in
  r.1.1 = Settled (Fulfilled tt) /\
  issues e0 (r.2) [generateWorkflow prompt (Some (controllers e0))] /\
  kind <$> events (r.1.2)
    = (const message_ <$> msgs) ++ option_list (fst <$> closing_event closing) /\
  payload <$> events (r.1.2)
    = ((fun m => Some (generated m)) <$> msgs)
      ++ option_list ((fun kp => Some kp.2) <$> closing_event closing) /\
  latest (r.1.2) = last msgs /\
  runRes (r.1.2) = None /\
  streaming (r.1.2) = false /\ abortRef (r.1.2) = None.
Proof.
  intros Hp Hc. unfold start_call. rewrite start_opens by done.
  edestruct feed_messages
    as (s' & env' & -> & Hk & Hpay & Hl & Hr & _ & _ & Hi & _).
  simpl in Hk, Hpay, Hl, Hr, Hi.
  assert (latest s' = last msgs) as Hl' by (rewrite Hl; by destruct (last msgs)).
  unfold feed, issues.
  destruct closing as [msg| |e]; [by destruct (Hc msg)| |].
  - simpl. rewrite !fmap_app, Hk, Hpay, Hi. simpl. done.
  - simpl. destruct (bool_decide (name e = "AbortError")); simpl.
    + rewrite Hk, Hpay, Hi, !app_nil_r. done.
    + rewrite !fmap_app, Hk, Hpay, Hi. simpl. done.
Qed.

Lemma stream_to_the_end_witness :
  let r := start_call false "send a mail"
             [Yield draft; StreamThrows unavailable] initial quiet in
  r.1.1 = Settled (Fulfilled tt) /\
  issues quiet (r.2) [generateWorkflow "send a mail" (Some 0%nat)] /\
  kind <$> events (r.1.2) = [message_; error_] /\
  payload <$> events (r.1.2)
    = [Some (generated draft); Some (thrown unavailable)] /\
  latest (r.1.2) = Some draft /\
  runRes (r.1.2) = None /\
  streaming (r.1.2) = false /\ abortRef (r.1.2) = None.
Proof.
  apply (stream_to_the_end "send a mail" [draft] (StreamThrows unavailable)
           initial quiet); [discriminate|discriminate].
Defined.

(** X12.  Whenever no stream is open, in particular after a stream has
    ended, [stop()] changes nothing: there is no controller left for it
    to abort.  This holds on every trace, whatever the calls have
    closed over. *)
Theorem stop_without_stream (e0 : Env.t) (inputs : list Input) :
  open_streams (run (boot e0) inputs) = [] ->
  step (run (boot e0) inputs) ui_stop = run (boot e0) inputs.
Proof.
  intros Hopen.
  pose proof (run_ref_is_open (boot e0) inputs (boot_ref_is_open e0))
    as Href.
  unfold ref_is_open in Href. rewrite Hopen in Href.
  destruct (run (boot e0) inputs) as [s e l]. simpl in *.
  unfold stop. destruct (abortRef s) as [n|]; [|done].
  destruct (Href n eq_refl) as (f & Hf & _). by apply elem_of_nil in Hf.
Qed.

Lemma stop_without_stream_witness :
  step (run (boot quiet)
          [ui_start false "a"; ui_start false "b";
           resume 0 (StreamGives EndOfStream);
           resume 0 (StreamGives EndOfStream)])
       ui_stop
  = run (boot quiet)
      [ui_start false "a"; ui_start false "b";
       resume 0 (StreamGives EndOfStream);
       resume 0 (StreamGives EndOfStream)].
Proof.
  apply (stop_without_stream quiet
           [ui_start false "a"; ui_start false "b";
            resume 0 (StreamGives EndOfStream);
            resume 0 (StreamGives EndOfStream)]).
  reflexivity.
Defined.

End GenerationCallFacts.

(** ** Whole calls of the run hook and its progress messages *)

Module RunCallFacts.
Import Proto Env Log WorkflowProgress Words MoreWords Samples.
Import RunFacts.

(** A host call that hands back a promise: the message is recorded and
    nothing else changes. *)
Lemma on_host_posts (m : WorkflowProgressMessage) (env : Env.t)
    (send : HostFn) :
  hostFn (host env) = Some send ->
  returns_promises (host env) ->
  exists env',
    on_host (sendProgressMessage m) env = (Normal tt, env') /\
    posted (host env') = posted (host env) ++ [m] /\
    calm env env' /\ ticks env' = ticks env /\ clock env' = clock env.
Proof.
  intros Hf Hp. unfold on_host, sendProgressMessage. rewrite Hf.
  destruct (send (length (posted (host env))) m) as [p|e] eqn:Hs.
  - eexists. split; [reflexivity|]. simpl. by repeat split.
  - by destruct (Hp _ _ _ _ Hf Hs).
Qed.

Lemma mark_started_ids (steps : list WorkflowProgressStep) (env : Env.t) :
  step_functionId <$> (RunV2.mark_started steps env).1
  = step_functionId <$> steps.
Proof.
  unfold RunV2.mark_started. simpl. rewrite fmap_imap.
  rewrite <- (imap_const step_functionId steps). by apply imap_ext.
Qed.

Lemma mark_started_status (st : WorkflowProgressStep)
    (steps : list WorkflowProgressStep) (env : Env.t) :
  step_status <$> (RunV2.mark_started (st :: steps) env).1
  = SRunning :: replicate (length steps) SPending.
Proof.
  unfold RunV2.mark_started. simpl. f_equal.
  rewrite fmap_imap.
  rewrite <- (const_fmap (fun _ : WorkflowProgressStep => SPending)
                steps SPending) by done.
  rewrite <- (imap_const (fun _ => SPending) steps). by apply imap_ext.
Qed.

Lemma mark_completed_ids (steps : list WorkflowProgressStep) (env : Env.t) :
  step_functionId <$> (RunV2.mark_completed steps env).1
  = step_functionId <$> steps.
Proof.
  revert env. induction steps as [|st steps IH]; intros env; [done|].
  simpl. specialize (IH (now env).2). simpl in IH.
  destruct (RunV2.mark_completed steps _) as [rest env']. simpl in *.
  by f_equal.
Qed.



Lemma mark_completed_host (steps : list WorkflowProgressStep)
    (env : Env.t) :
  host (RunV2.mark_completed steps env).2 = host env.
Proof.
  revert env. induction steps as [|st steps IH]; intros env; [done|].
  simpl. specialize (IH (now env).2). simpl in IH.
  by destruct (RunV2.mark_completed steps _) as [rest env'].
Qed.

Lemma parse_ids (ids : list string) :
  step_functionId <$> parseWorkflowSteps ids = ids.
Proof.
  unfold parseWorkflowSteps. rewrite fmap_imap.
  rewrite <- (list_fmap_id ids) at 2. rewrite <- imap_const.
  by apply imap_ext.
Qed.




Lemma v2_catch_posts (e : Error) (workflowId : string)
    (steps : list WorkflowProgressStep) (s : RunV2.State) (env : Env.t)
    (send : HostFn) :
  hostFn (host env) = Some send ->
  returns_promises (host env) ->
  steps <> [] ->
  exists s' env',
    RunV2.catch_block e workflowId steps s env = (Normal tt, s', env') /\
    posted (host env')
    = posted (host env) ++
        [{| msg_type := workflow_progress_error;
            msg_workflowId := workflowId;
            msg_workflowName := None;
            msg_steps := Some (failed_steps steps).1;
            msg_currentStepIndex := Some (failed_steps steps).2;
            msg_status := Some MError |}] /\
    issued env' = issued env /\
    RunV1.running s' = RunV1.running s /\
    RunV1.runRes s' = RunV1.runRes s.
Proof.
  intros Hf Hp Hne. unfold RunV2.catch_block, failed_steps.
  unfold RunV2.append, RunV1.append, Log.append, now.
  cbv beta iota zeta. destruct steps as [|st steps]; [done|].
  unfold notifyWorkflowError.
  match goal with
  | |- context [on_host (sendProgressMessage ?m) ?e] =>
      destruct (on_host_posts m e send Hf Hp)
        as (env1 & Heq & Hpost & Hcalm & _)
  end.
  rewrite Heq. eexists _, _. split; [reflexivity|]. rewrite Hpost.
  cbn [host]. destruct Hcalm as (Hi & _). split; [|by split].
  by destruct (RunV2.findIndex_running (st :: steps)).
Qed.

Lemma failed_steps_started (st : WorkflowProgressStep)
    (sts : list WorkflowProgressStep) (env : Env.t) :
  let marked := (RunV2.mark_started (st :: sts) env).1 in
  (failed_steps marked).2 = 0 /\
  step_functionId <$> (failed_steps marked).1
    = step_functionId <$> (st :: sts) /\
  step_status <$> (failed_steps marked).1
    = SError :: replicate (length sts) SPending.
Proof.
  pose proof (mark_started_ids (st :: sts) env) as Hi.
  pose proof (mark_started_status st sts env) as Hs.
  unfold RunV2.mark_started in *. simpl in *.
  unfold failed_steps. simpl. split; [done|]. simpl in *.
  split; [exact Hi|]. f_equal. by injection Hs.
Qed.


Lemma accepting_window :
  hostFn (host (env_with (window_with accepting))) = Some accepting.
Proof. reflexivity. Qed.


(** X14.  A [runById] without a workflow, or for a workflow whose
    latest code lists no plugin function id, never calls the host: no
    progress message is posted, whatever the host and however
    [runWorkflow] settles, and the call ends fulfilled with
    [running = false]. *)
Theorem run_without_steps (workflowId : string) (codeId : option string)
    (workflow : option Workflow) (p : Promise RunWorkflowResponse)
    (s : RunV2.State) (env : Env.t) :
  RunV2.getPluginFunctionIds workflow = [] ->
  let r := Calls.runById false workflowId codeId workflow p s env in
  host (r.2) = host env /\ r.1.1 = Fulfilled tt /\
  RunV1.running (r.1.2) = false.
Proof.
  intros Hids. unfold Calls.runById, RunV2.runById. rewrite Hids.
  simpl. by destruct p.
Qed.

Lemma run_without_steps_witness :
  let r := Calls.runById false "wf-1" None None (Rejected unavailable)
             RunV1.initial (env_with (window_with throwing)) in
  host (r.2) = host (env_with (window_with throwing)) /\
  r.1.1 = Fulfilled tt /\ RunV1.running (r.1.2) = false.
Proof.
  apply (run_without_steps "wf-1" None None (Rejected unavailable)
           RunV1.initial (env_with (window_with throwing))).
  reflexivity.
Defined.

Lemma parse_pending (ids : list string) :
  step_status <$> parseWorkflowSteps ids = replicate (length ids) SPending.
Proof.
  unfold parseWorkflowSteps. rewrite fmap_imap.
  rewrite <- (const_fmap (fun _ : string => SPending) ids SPending) by done.
  rewrite <- (imap_const (fun _ => SPending) ids). by apply imap_ext.
Qed.

Lemma findIndex_running_pending (steps : list WorkflowProgressStep) :
  step_status <$> steps = replicate (length steps) SPending ->
  RunV2.findIndex_running steps = None.
Proof.
  induction steps as [|st steps IH]; [done|]. simpl. intros H.
  injection H as Hst Hrest. unfold RunV2.is_running. rewrite Hst.
  by rewrite IH.
Qed.

Lemma failed_steps_parsed (ids : list string) :
  failed_steps (parseWorkflowSteps ids) = (parseWorkflowSteps ids, 0).
Proof.
  unfold failed_steps. rewrite findIndex_running_pending; [done|].
  rewrite parse_pending. f_equal.
  by rewrite <- (length_fmap step_functionId), parse_ids.
Qed.

(** X15.  When [runByDefinition] gets no workflow id from the save (the
    [updateWorkflow] call is rejected, or its response has no workflow
    or an empty id) and the definition lists plugin function ids, then
    on a window whose host function hands back promises exactly one
    progress message is posted: an error message for the id of the
    definition, index 0, with one step per function id, all still
    pending.  No start message precedes it, [updateWorkflow] is the
    only request issued ([runWorkflow] is never called), and the call
    ends fulfilled with [running = false]. *)
Theorem definition_save_failure (workflow : Workflow)
    (saved : Promise UpdateWorkflowResponse)
    (ran : Promise RunWorkflowResponse)
    (s : RunV2.State) (env : Env.t) (send : HostFn) :
  hostFn (host env) = Some send ->
  returns_promises (host env) ->
  RunV2.getPluginFunctionIds (Some workflow) <> [] ->
  no_saved_id saved = true ->
  exists m,
    posted_between env
      (Calls.runByDefinition false workflow saved ran s env).2 [m] /\
    issues env (Calls.runByDefinition false workflow saved ran s env).2
      [updateWorkflow workflow None] /\
    (Calls.runByDefinition false workflow saved ran s env).1.1
      = Fulfilled tt /\
    RunV1.running (Calls.runByDefinition false workflow saved ran s env).1.2
      = false /\
    msg_type m = workflow_progress_error /\
    msg_workflowId m = Proto.workflowId workflow /\
    msg_status m = Some MError /\
    msg_currentStepIndex m = Some 0 /\
    step_functionId <$> steps_of m
      = RunV2.getPluginFunctionIds (Some workflow) /\
    step_status <$> steps_of m
      = replicate (length (RunV2.getPluginFunctionIds (Some workflow)))
                  SPending.
Proof.
  intros Hf Hp Hids Hsaved.
  set (ids := RunV2.getPluginFunctionIds (Some workflow)) in *.
  assert (parseWorkflowSteps ids <> []) as Hne.
  { intros Hnil. apply Hids. by rewrite <- (parse_ids ids), Hnil. }
  pose proof (failed_steps_parsed ids) as Hfail.
  pose proof (parse_ids ids) as Hpi.
  pose proof (parse_pending ids) as Hpp.
  unfold Calls.runByDefinition, RunV2.runByDefinition.
  cbv beta iota zeta. fold ids.
  remember (parseWorkflowSteps ids) as steps eqn:Hsteps. clear Hsteps.
  unfold RunV2.append, RunV1.append, Log.append.
  unfold now at 1 2 3 4. cbv beta iota zeta.
  match goal with
  | |- context [RunV2.runByDefinition_saved _ _ _ _ ?s1 ?e1] =>
      set (s1' := s1); set (env1 := e1)
  end.
  assert (hostFn (host env1) = Some send) as Hf1 by exact Hf.
  assert (returns_promises (host env1)) as Hp1 by exact Hp.
  assert (RunV2.runByDefinition_saved workflow steps
            (or_else (displayName workflow) "Workflow") saved s1' env1
          = RunV2.settled
                (RunV2.finally
                   (RunV2.catch_block
                      (match saved with
                       | Rejected e' => e'
                       | Fulfilled _ =>
                           mkError "Error"
                             "Failed to save workflow: no ID returned"
                       end)
                      (Proto.workflowId workflow) steps s1' env1))) as Hsave.
  { unfold RunV2.runByDefinition_saved. cbv zeta.
    destruct saved as [r|e]; [|done]. simpl in Hsaved.
    destruct (savedWorkflow r) as [w|]; [|done].
    by rewrite Hsaved. }
  rewrite Hsave. clear Hsave.
  destruct (v2_catch_posts
              (match saved with
               | Rejected e' => e'
               | Fulfilled _ =>
                   mkError "Error" "Failed to save workflow: no ID returned"
               end)
              (Proto.workflowId workflow) steps s1' env1 send Hf1 Hp1 Hne)
    as (s2 & env2 & -> & Hpost & Hiss & Hrun & _).
  unfold RunV2.settled, RunV2.finally. cbv beta iota zeta.
  eexists. unfold posted_between, issues. split; [exact Hpost|].
  split; [exact Hiss|].
  unfold steps_of. simpl. rewrite Hfail. simpl. by rewrite Hpi, Hpp.
Qed.

Lemma definition_save_failure_witness :
  exists m,
    posted (host (Calls.runByDefinition false mail_workflow
                    (Rejected unavailable)
                    (Fulfilled (RunResponse 7))
                    RunV1.initial (env_with (window_with accepting))).2)
    = [m] /\
    msg_type m = workflow_progress_error /\
    msg_workflowId m = "wf-1" /\
    step_status <$> steps_of m = [SPending; SPending].
Proof.
  destruct (definition_save_failure mail_workflow (Rejected unavailable)
              (Fulfilled (RunResponse 7)) RunV1.initial
              (env_with (window_with accepting)) accepting
              accepting_window accepting_returns_promises
              ltac:(discriminate) eq_refl)
    as (m & Hp & _ & _ & _ & Ht & Hw & _ & _ & _ & Hs).
  exists m. split; [exact Hp|]. split; [exact Ht|].
  split; [exact Hw|exact Hs].
Defined.

Lemma def_saved_posts (workflow saved : Workflow)
    (resp : UpdateWorkflowResponse) (s : RunV2.State) (env : Env.t)
    (send : HostFn) (st : WorkflowProgressStep)
    (sts : list WorkflowProgressStep) :
  hostFn (host env) = Some send ->
  returns_promises (host env) ->
  savedWorkflow resp = Some saved ->
  Proto.workflowId saved <> "" ->
  parseWorkflowSteps (shown_ids workflow saved) = st :: sts ->
  exists s' env',
    RunV2.runByDefinition_saved workflow
      (parseWorkflowSteps (RunV2.getPluginFunctionIds (Some workflow)))
      (or_else (displayName workflow) "Workflow") (Fulfilled resp) s env
    = (Awaiting
         (RunV2.DefRun workflow (Proto.workflowId saved)
            (RunV2.mark_started (st :: sts) (now env).2).1), s', env') /\
    posted (host env')
    = posted (host env) ++
        [{| msg_type := workflow_progress_start;
            msg_workflowId := Proto.workflowId saved;
            msg_workflowName :=
              Some (or_else (displayName workflow) "Workflow");
            msg_steps :=
              Some (RunV2.mark_started (st :: sts) (now env).2).1;
            msg_currentStepIndex := Some 0;
            msg_status := Some MRunning |}] /\
    issued env'
    = issued env ++
        [runWorkflow (Proto.workflowId saved) (first_code_id saved) None] /\
    hostFn (host env') = hostFn (host env).
Proof.
  intros Hf Hp Hsaved Hid Hsteps. unfold RunV2.runByDefinition_saved.
  cbv zeta. rewrite Hsaved. rewrite bool_decide_eq_false_2 by done.
  assert (match RunV2.getPluginFunctionIds (Some saved) with
          | [] => parseWorkflowSteps
                    (RunV2.getPluginFunctionIds (Some workflow))
          | _ :: _ =>
              parseWorkflowSteps (RunV2.getPluginFunctionIds (Some saved))
          end = st :: sts) as ->.
  { rewrite <- Hsteps. unfold shown_ids.
    by destruct (RunV2.getPluginFunctionIds (Some saved)). }
  unfold RunV2.append, RunV1.append, Log.append.
  unfold RunV2.mark_started, now. cbv beta iota zeta.
  unfold notifyWorkflowStart.
  match goal with
  | |- context [on_host (sendProgressMessage ?m) ?e] =>
      destruct (on_host_posts m e send Hf Hp)
        as (env1 & Heq & Hpost & Hcalm & _)
  end.
  rewrite Heq. cbv beta iota zeta. eexists _, _. split; [reflexivity|].
  destruct Hcalm as (Hi & _ & _ & _ & Hh). simpl in *.
  by rewrite Hpost, Hi.
Qed.

Lemma def_ran_posts (workflow : Workflow) (workflowId : string)
    (steps : list WorkflowProgressStep) (ran : Promise RunWorkflowResponse)
    (s : RunV2.State) (env : Env.t) (send : HostFn) :
  hostFn (host env) = Some send ->
  returns_promises (host env) ->
  steps <> [] ->
  exists s' env',
    RunV2.runByDefinition_ran workflow workflowId steps ran s env
    = (Fulfilled tt, s', env') /\
    posted (host env')
    = posted (host env) ++
        [match ran with
         | Fulfilled _ =>
             {| msg_type := workflow_progress_complete;
                msg_workflowId := workflowId;
                msg_workflowName := None;
                msg_steps :=
                  Some (RunV2.mark_completed steps (now (now env).2).2).1;
                msg_currentStepIndex :=
                  Some (Z.of_nat
                          (length (RunV2.mark_completed steps
                                     (now (now env).2).2).1) - 1);
                msg_status := Some MCompleted |}
         | Rejected _ =>
             {| msg_type := workflow_progress_error;
                msg_workflowId := Proto.workflowId workflow;
                msg_workflowName := None;
                msg_steps := Some (failed_steps steps).1;
                msg_currentStepIndex := Some (failed_steps steps).2;
                msg_status := Some MError |}
         end] /\
    issued env' = issued env /\
    RunV1.running s' = false.
Proof.
  intros Hf Hp Hne. unfold RunV2.runByDefinition_ran. cbv zeta.
  destruct ran as [res|e].
  - destruct steps as [|st steps]; [done|].
    unfold RunV2.append, RunV1.append, Log.append.
    unfold now at 1 2. cbv beta iota zeta.
    pose proof (mark_completed_calm (st :: steps) (now (now env).2).2) as Hm.
    pose proof (mark_completed_host (st :: steps) (now (now env).2).2) as Hh.
    unfold now in Hm, Hh |- *. cbn [fst snd] in Hm, Hh |- *.
    destruct (RunV2.mark_completed (st :: steps) _) as [done env1].
    cbn [fst snd host] in Hm, Hh |- *.
    assert (hostFn (host env1) = Some send) as Hf1 by (by rewrite Hh).
    assert (returns_promises (host env1)) as Hp1 by (by rewrite Hh).
    unfold notifyWorkflowComplete.
    match goal with
    | |- context [on_host (sendProgressMessage ?m) ?e] =>
        destruct (on_host_posts m e send Hf1 Hp1)
          as (env2 & Heq & Hpost & Hcalm & _)
    end.
    rewrite Heq. cbv beta iota zeta. unfold RunV2.finally.
    eexists _, _. split; [reflexivity|].
    destruct Hcalm as (Hi & _). destruct Hm as (Hi1 & _).
    simpl in *. by rewrite Hpost, Hh, Hi, Hi1.
  - destruct (v2_catch_posts e (Proto.workflowId workflow) steps s env send
                Hf Hp Hne) as (s2 & env2 & -> & Hpost & Hi & _).
    unfold RunV2.finally. eexists _, _. split; [reflexivity|].
    by rewrite Hpost, Hi.
Qed.

(** X16.  When [runByDefinition] saves the workflow and gets an id
    back, on a window whose host function hands back promises: the
    requests issued are [updateWorkflow] for the definition, then
    [runWorkflow] for the saved id and the id of the FIRST code entry
    of the saved workflow; two progress messages are posted, with one
    step per function id of the saved workflow's latest code (of the
    definition's when the saved workflow lists none).  The start
    message carries the saved id and the definition's display name.
    The closing message carries the saved id when the run is fulfilled
    (complete), but the id of the definition as it was passed in when
    the run is rejected (error). *)
Theorem definition_run_ids (workflow saved : Workflow)
    (resp : UpdateWorkflowResponse) (ran : Promise RunWorkflowResponse)
    (s : RunV2.State) (env : Env.t) (send : HostFn) :
  hostFn (host env) = Some send ->
  returns_promises (host env) ->
  savedWorkflow resp = Some saved ->
  Proto.workflowId saved <> "" ->
  shown_ids workflow saved <> [] ->
  exists m1 m2,
    posted_between env
      (Calls.runByDefinition false workflow (Fulfilled resp) ran s env).2
      [m1; m2] /\
    issues env
      (Calls.runByDefinition false workflow (Fulfilled resp) ran s env).2
      [updateWorkflow workflow None;
       runWorkflow (Proto.workflowId saved) (first_code_id saved) None] /\
    msg_type m1 = workflow_progress_start /\
    msg_workflowId m1 = Proto.workflowId saved /\
    msg_workflowName m1 = Some (or_else (displayName workflow) "Workflow") /\
    step_functionId <$> steps_of m1 = shown_ids workflow saved /\
    step_functionId <$> steps_of m2 = shown_ids workflow saved /\
    match ran with
    | Fulfilled _ =>
        msg_type m2 = workflow_progress_complete /\
        msg_workflowId m2 = Proto.workflowId saved
    | Rejected _ =>
        msg_type m2 = workflow_progress_error /\
        msg_workflowId m2 = Proto.workflowId workflow
    end.
Proof.
  intros Hf Hp Hsaved Hid Hids.
  pose proof (parse_ids (shown_ids workflow saved)) as Hparse.
  destruct (parseWorkflowSteps (shown_ids workflow saved))
    as [|st sts] eqn:Hsteps.
  { by rewrite <- Hparse in Hids. }
  unfold Calls.runByDefinition, RunV2.runByDefinition.
  cbv beta iota zeta.
  unfold RunV2.append, RunV1.append, Log.append.
  unfold now. cbv beta iota zeta.
  match goal with
  | |- context [RunV2.runByDefinition_saved _ _ _ _ ?s1 ?e1] =>
      set (s1' := s1); set (env1 := e1)
  end.
  assert (hostFn (host env1) = Some send) as Hf1 by exact Hf.
  assert (returns_promises (host env1)) as Hp1 by exact Hp.
  destruct (def_saved_posts workflow saved resp s1' env1 send st sts
              Hf1 Hp1 Hsaved Hid Hsteps)
    as (s2 & env2 & -> & Hpost2 & Hiss2 & Hh2).
  pose proof (mark_started_ids (st :: sts) (now env1).2) as Hmi.
  pose proof (mark_started_status st sts (now env1).2) as Hms.
  destruct (failed_steps_started st sts (now env1).2) as (_ & Hfid & _).
  remember (RunV2.mark_started (st :: sts) (now env1).2).1
    as marked eqn:Hmk.
  clear Hmk.
  assert (marked <> []) as Hne.
  { intros Hnil. by rewrite Hnil in Hms. }
  assert (hostFn (host env2) = Some send) as Hf2 by congruence.
  assert (returns_promises (host env2)) as Hp2.
  { intros send' n m e Hs'. apply (Hp send' n m e). congruence. }
  destruct (def_ran_posts workflow (Proto.workflowId saved) marked ran
              s2 env2 send Hf2 Hp2 Hne)
    as (s3 & env3 & -> & Hpost3 & Hiss3 & _).
  eexists _, _. unfold posted_between, issues. split.
  { simpl. rewrite Hpost3, Hpost2, <- app_assoc. reflexivity. }
  split.
  { simpl. rewrite Hiss3, Hiss2. subst env1. simpl.
    by rewrite <- app_assoc. }
  unfold steps_of. destruct ran as [res|e]; simpl.
  - by rewrite mark_completed_ids, Hmi, Hparse.
  - by rewrite Hfid, Hmi, Hparse.
Qed.

Lemma definition_run_ids_witness :
  exists m1 m2,
    posted (host (Calls.runByDefinition false mail_workflow
                    (Fulfilled
                       {| savedWorkflow :=
                            Some {| workflowId := "wf-9";
                                    displayName := "Saved";
                                    workflowCode := [] |} |})
                    (Rejected unavailable) RunV1.initial
                    (env_with (window_with accepting))).2)
    = [m1; m2] /\
    msg_workflowId m1 = "wf-9" /\ msg_workflowName m1 = Some "Mail" /\
    msg_type m2 = workflow_progress_error /\ msg_workflowId m2 = "wf-1".
Proof.
  destruct (definition_run_ids mail_workflow
              {| workflowId := "wf-9"; displayName := "Saved";
                 workflowCode := [] |}
              {| savedWorkflow :=
                   Some {| workflowId := "wf-9"; displayName := "Saved";
                           workflowCode := [] |} |}
              (Rejected unavailable) RunV1.initial
              (env_with (window_with accepting)) accepting
              accepting_window accepting_returns_promises
              eq_refl ltac:(discriminate) ltac:(discriminate))
    as (m1 & m2 & Hp & _ & _ & Hw1 & Hn1 & _ & _ & Ht2 & Hw2).
  exists m1, m2. split; [exact Hp|]. split; [exact Hw1|].
  split; [exact Hn1|]. split; [exact Ht2|exact Hw2].
Defined.

End RunCallFacts.

(** ** Whole calls of [runLatest] *)

Module RunLatestFacts.
Import Js Proto WorkflowProgress Env Log Samples Words MoreWords.

Lemma saved_of_none (saved : Promise UpdateWorkflowResponse) :
  saved_of saved = None <-> no_saved_id saved = true.
Proof.
  destruct saved as [r|e]; simpl; [|done].
  destruct (savedWorkflow r) as [w|]; [|done].
  by destruct (bool_decide (workflowId w = "")).
Qed.

(** X17.  A whole [runLatest] for a generated definition only appends
    to the event log and leaves [streaming], [latest] and the abort
    controller alone; it always ends fulfilled.  When the save gives no
    workflow id, two events are appended (the last an error),
    [updateWorkflow] is the only request and [runRes] keeps its old
    value.  Otherwise [runWorkflow] is requested for the saved id and
    the id of the first code entry of the saved workflow; a fulfilled
    run appends five events, the last of kind done, and stores the
    response in [runRes]; a rejected run appends four events, the last
    an error, and [runRes] keeps its old value.  No request carries an
    abort signal. *)
Theorem runLatest_whole_call (latest : option GenerateWorkflowResponse)
    (wf : Workflow) (saved : Promise UpdateWorkflowResponse)
    (ran : Promise RunWorkflowResponse)
    (s : Generation.State) (env : Env.t) :
  latest ≫= workflowDefinition = Some wf ->
  exists new,
    Generation.events (Calls.runLatest latest saved ran s env).1.2
      = Generation.events s ++ new /\
    (Calls.runLatest latest saved ran s env).1.1 = Settled (Fulfilled tt) /\
    Generation.streaming (Calls.runLatest latest saved ran s env).1.2
      = Generation.streaming s /\
    Generation.latest (Calls.runLatest latest saved ran s env).1.2
      = Generation.latest s /\
    Generation.abortRef (Calls.runLatest latest saved ran s env).1.2
      = Generation.abortRef s /\
    aborted (Calls.runLatest latest saved ran s env).2 = aborted env /\
    match saved_of saved with
    | None =>
        kind <$> new = [message_; error_] /\
        issues env (Calls.runLatest latest saved ran s env).2
          [updateWorkflow wf None] /\
        Generation.runRes (Calls.runLatest latest saved ran s env).1.2
          = Generation.runRes s
    | Some w =>
        issues env (Calls.runLatest latest saved ran s env).2
          [updateWorkflow wf None;
           runWorkflow (workflowId w) (first_code_id w) None] /\
        match ran with
        | Fulfilled res =>
            kind <$> new = [message_; message_; message_; message_; done_] /\
            Generation.runRes (Calls.runLatest latest saved ran s env).1.2
              = Some res
        | Rejected _ =>
            kind <$> new = [message_; message_; message_; error_] /\
            Generation.runRes (Calls.runLatest latest saved ran s env).1.2
              = Generation.runRes s
        end
    end.
Proof.
  intros Hwf. unfold Calls.runLatest, Generation.runLatest. rewrite Hwf.
  unfold issues, first_code_id.
  destruct saved as [r|e]; simpl.
  - destruct (savedWorkflow r) as [w|]; simpl.
    + destruct (bool_decide (workflowId w = "")); simpl.
      * eexists [_; _]. rewrite <- !app_assoc. simpl. by repeat split.
      * destruct ran as [res|e]; simpl.
        -- eexists [_; _; _; _; _]. rewrite <- !app_assoc. simpl.
           by repeat split.
        -- eexists [_; _; _; _]. rewrite <- !app_assoc. simpl.
           by repeat split.
    + eexists [_; _]. rewrite <- !app_assoc. simpl. by repeat split.
  - eexists [_; _]. rewrite <- !app_assoc. simpl. by repeat split.
Qed.

Lemma runLatest_whole_call_witness :
  exists new,
    Generation.events
      (Calls.runLatest (Some {| workflowDefinition := Some mail_workflow |})
         (Fulfilled {| savedWorkflow := None |})
         (Fulfilled (RunResponse 7)) Generation.initial
         (env_with bare_window)).1.2
    = new /\
    kind <$> new = [message_; error_].
Proof.
  destruct (runLatest_whole_call
              (Some {| workflowDefinition := Some mail_workflow |})
              mail_workflow (Fulfilled {| savedWorkflow := None |})
              (Fulfilled (RunResponse 7)) Generation.initial
              (env_with bare_window) eq_refl)
    as (new & He & _ & _ & _ & _ & _ & Hk & _).
  exists new. split; [exact He|exact Hk].
Defined.

End RunLatestFacts.

(** ** More on [parseWorkflowSteps] *)

Module ParseFacts.
Import Js WorkflowProgress.

Lemma after_last_dot_dotless (s : string) :
  has_dot (after_last_dot s) = false.
Proof.
  induction s as [|c s IH]; [done|]. simpl.
  destruct (has_dot s) eqn:Hd; [exact IH|].
  destruct (Ascii.eqb c "."%char) eqn:Hc; [exact Hd|].
  simpl. by rewrite Hc, Hd.
Qed.

(** X18.  The step ids [parseWorkflowSteps] hands out are pairwise
    distinct, whatever the function ids are (also when a function id
    is listed twice). *)
Theorem step_ids_distinct (ids : list string) :
  NoDup (step_id <$> parseWorkflowSteps ids).
Proof.
  apply NoDup_alt. intros i j x Hi Hj.
  unfold parseWorkflowSteps in Hi, Hj.
  rewrite list_lookup_fmap, list_lookup_imap in Hi.
  rewrite list_lookup_fmap, list_lookup_imap in Hj.
  destruct (ids !! i) as [a|]; [|done].
  destruct (ids !! j) as [b|]; [|done].
  simpl in Hi, Hj. injection Hi as Hi. injection Hj as Hj.
  rewrite <- Hj in Hi. apply (inj (String.app "step-")) in Hi.
  by apply (inj pretty) in Hi.
Qed.

(** X19.  A step of [parseWorkflowSteps] has an empty function name
    only when its function id is empty, and its name contains a dot
    only when the name is the whole function id (the id ends in a
    dot). *)
Theorem step_names (ids : list string) (step : WorkflowProgressStep) :
  step ∈ parseWorkflowSteps ids ->
  (step_functionName step = "" <-> step_functionId step = "") /\
  (has_dot (step_functionName step) = true ->
   step_functionName step = step_functionId step).
Proof.
  intros (i & Hi)%list_elem_of_lookup. unfold parseWorkflowSteps in Hi.
  rewrite list_lookup_imap in Hi.
  destruct (ids !! i) as [fid|]; [|done]. injection Hi as <-.
  simpl. rewrite pop_split_dot. unfold or_else.
  destruct (decide (after_last_dot fid = "")) as [He|Hne]; [done|].
  split.
  - split; [done|]. intros ->. done.
  - by rewrite after_last_dot_dotless.
Qed.

Lemma step_names_witness :
  parseStep 1 "fs." ∈ parseWorkflowSteps ["mail.send"; "fs."] /\
  (step_functionName (parseStep 1 "fs.") = ""
   <-> step_functionId (parseStep 1 "fs.") = "") /\
  (has_dot (step_functionName (parseStep 1 "fs.")) = true ->
   step_functionName (parseStep 1 "fs.")
   = step_functionId (parseStep 1 "fs.")).
Proof.
  assert (parseStep 1 "fs." ∈ parseWorkflowSteps ["mail.send"; "fs."])
    as Hin.
  { apply list_elem_of_lookup. by exists 1%nat. }
  split; [exact Hin|].
  exact (step_names ["mail.send"; "fs."] (parseStep 1 "fs.") Hin).
Defined.

End ParseFacts.

(** ** The layout of the progress dots *)

Module DotsLayoutFacts.
Import Proto ProgressDots Samples Words.

Section Component.
Variables Statement Importance : Type.
Variable parseWorkflowCode : string -> ParseResult Statement.
Variable groupStatementsIntoActions :
  list Statement -> list (Action Importance).
Variable getActionColor : ActionType -> Importance -> string.

Local Abbreviation view := (WorkflowProgressDots Statement Importance
  parseWorkflowCode groupStatementsIntoActions getActionColor).

(** X20.  In the row of step dots a connector line follows every dot
    but the last; at most one dot is the current one; and the
    completed dots are the first ones: a dot before a completed dot is
    completed. *)
Theorem dots_layout (props : Props) :
  (forall i dot,
     dots_of (view props) !! i = Some dot ->
     dot_connector dot
     = bool_decide (S i < length (dots_of (view props)))%nat) /\
  (forall i j di dj,
     dots_of (view props) !! i = Some di ->
     dots_of (view props) !! j = Some dj ->
     dot_isCurrent di = true -> dot_isCurrent dj = true -> i = j) /\
  (forall i j di dj,
     dots_of (view props) !! i = Some di ->
     dots_of (view props) !! j = Some dj ->
     (i <= j)%nat -> dot_isCompleted dj = true ->
     dot_isCompleted di = true).
Proof.
  rewrite (ProgressDotsFacts.view_dots Statement Importance
             parseWorkflowCode groupStatementsIntoActions getActionColor).
  rewrite length_imap.
  set (acts := actionsOf Statement Importance parseWorkflowCode
                 groupStatementsIntoActions (latestCodeOf (workflow props))).
  repeat split.
  - intros i dot Hd. rewrite list_lookup_imap in Hd.
    destruct (acts !! i) as [a|]; [|done]. injection Hd as <-.
    cbn [dot_connector renderDot].
    destruct (Z.ltb_spec (Z.of_nat i) (Z.of_nat (length acts) - 1)).
    + rewrite bool_decide_eq_true_2; [done|lia].
    + rewrite bool_decide_eq_false_2; [done|lia].
  - intros i j di dj Hi Hj. rewrite list_lookup_imap in Hi, Hj.
    destruct (acts !! i) as [a|]; [|done].
    destruct (acts !! j) as [b|]; [|done].
    injection Hi as <-. injection Hj as <-.
    cbn [dot_isCurrent renderDot].
    intros Hci%bool_decide_eq_true Hcj%bool_decide_eq_true.
    rewrite Hci in Hcj. injection Hcj as Hcj. lia.
  - intros i j di dj Hi Hj. rewrite list_lookup_imap in Hi, Hj.
    destruct (acts !! i) as [a|]; [|done].
    destruct (acts !! j) as [b|]; [|done].
    injection Hi as <-. injection Hj as <-.
    cbn [dot_isCompleted renderDot].
    intros Hle Hc%Z.ltb_lt. apply Z.ltb_lt. lia.
Qed.

End Component.

Lemma dots_layout_witness :
  exists first last,
    dots_of (WorkflowProgressDots nat unit toy_parse toy_group toy_color
               mail_props)
    = [first; last] /\
    dot_connector first = true /\ dot_connector last = false.
Proof.
  eexists _, _. split; [reflexivity|]. split.
  - exact (proj1 (dots_layout nat unit toy_parse toy_group toy_color
                    mail_props) 0%nat _ eq_refl).
  - exact (proj1 (dots_layout nat unit toy_parse toy_group toy_color
                    mail_props) 1%nat _ eq_refl).
Defined.

End DotsLayoutFacts.

(** ** The function list as it is shown *)

Module FunctionListViewFacts.
Import Js Proto FunctionList FunctionListView Samples MoreSamples.

Lemma inner_loop_other (pkg : PluginPackage) (funcs : list PluginFunction)
    (m : gmap string (PluginFunction * PluginPackage)) (id : string) :
  (forall g, g ∈ funcs -> functionId g <> id) ->
  foldl (fun m func => <[functionId func := (func, pkg)]> m) m funcs !! id
  = m !! id.
Proof.
  revert m. induction funcs as [|f funcs IH]; intros m H; [done|].
  simpl. rewrite IH.
  - apply lookup_insert_ne, H, elem_of_cons. by left.
  - intros g Hg. apply H, elem_of_cons. by right.
Qed.

Lemma outer_loop_other (packages : list PluginPackage)
    (m : gmap string (PluginFunction * PluginPackage)) (id : string) :
  (forall q g, q ∈ packages -> g ∈ functions q -> functionId g <> id) ->
  foldl (fun m pkg =>
           foldl (fun m func => <[functionId func := (func, pkg)]> m)
                 m (functions pkg)) m packages !! id
  = m !! id.
Proof.
  revert m. induction packages as [|q packages IH]; intros m H; [done|].
  simpl. rewrite IH.
  - apply inner_loop_other. intros g Hg.
    apply (H q g); [apply elem_of_cons; by left|done].
  - intros q' g Hq. apply H, elem_of_cons. by right.
Qed.

Lemma last_declaration (before after : list PluginPackage)
    (pkg : PluginPackage) (fs fs' : list PluginFunction)
    (f : PluginFunction) :
  functions pkg = fs ++ f :: fs' ->
  (forall g, g ∈ fs' -> functionId g <> functionId f) ->
  (forall q g, q ∈ after -> g ∈ functions q ->
               functionId g <> functionId f) ->
  functionMapOf (before ++ pkg :: after) !! functionId f = Some (f, pkg).
Proof.
  intros Hfs Hfs' Hafter. unfold functionMapOf.
  rewrite foldl_app. cbn [foldl].
  rewrite outer_loop_other by done.
  rewrite Hfs, foldl_app. cbn [foldl].
  rewrite inner_loop_other by done.
  apply lookup_insert_eq.
Qed.

(** X21.  When a function id is declared more than once among the
    packages of the latest code, [extractFunctionInfo] describes it by
    its last declaration: the last function with that id of the last
    package that has one gives the name, the description, the package
    name and the level. *)
Theorem last_declaration_wins (UNSPECIFIED : PermissionLevel)
    (workflow : Workflow) (latest : WorkflowCode)
    (before after : list PluginPackage) (pkg : PluginPackage)
    (fs fs' : list PluginFunction) (f : PluginFunction) (i : nat) :
  latestCode workflow = Some latest ->
  pluginPackages latest = before ++ pkg :: after ->
  functions pkg = fs ++ f :: fs' ->
  (forall g, g ∈ fs' -> functionId g <> functionId f) ->
  (forall q g, q ∈ after -> g ∈ functions q ->
               functionId g <> functionId f) ->
  pluginFunctionIds latest !! i = Some (functionId f) ->
  exists info,
    extractFunctionInfo UNSPECIFIED workflow !! i = Some info /\
    info_functionName info = functionName f /\
    info_description info = description f /\
    info_packageName info = Some (packageName pkg) /\
    info_permissionLevel info = greatest_level (permissions f).
Proof.
  intros Hl Hpk Hfs Hfs' Hafter Hi. unfold extractFunctionInfo.
  rewrite Hl. cbv zeta. rewrite list_lookup_fmap, Hi. cbn [fmap option_fmap option_map].
  unfold resolve. rewrite Hpk.
  rewrite (last_declaration before after pkg fs fs' f Hfs Hfs' Hafter).
  eexists. split; [reflexivity|]. cbn.
  by rewrite FunctionListFacts.maxLevel_greatest.
Qed.

Lemma last_declaration_wins_witness :
  exists info,
    extractFunctionInfo 0%N twice_workflow !! 0%nat = Some info /\
    info_functionName info = "Post" /\
    info_packageName info = Some "Post".
Proof.
  destruct (last_declaration_wins 0%N twice_workflow twice_code
              [mail_package] [] post_package [] [] post_function 0%nat
              eq_refl eq_refl eq_refl)
    as (info & Hi & Hn & _ & Hp & _).
  - intros g Hg. by apply elem_of_nil in Hg.
  - intros q g Hq. by apply elem_of_nil in Hq.
  - reflexivity.
  - exists info. split; [exact Hi|]. split; [exact Hn|exact Hp].
Defined.

Section Levels.
Variables UNSPECIFIED MEDIUM HIGH CRITICAL : PermissionLevel.

(** X22.  The colour, the label and the warning of a permission level
    agree, whatever the numbers of the enum values are: the colour is
    red exactly when the label is CRITICAL, orange exactly when it is
    HIGH, yellow exactly when it is MEDIUM and gray exactly when it
    is UNKNOWN; and the level counts as high risk exactly when the
    colour is red or orange. *)
Theorem level_presentation (level : PermissionLevel) :
  (getLevelColor MEDIUM HIGH CRITICAL level = "red"
   <-> getLevelLabel MEDIUM HIGH CRITICAL level = "CRITICAL") /\
  (getLevelColor MEDIUM HIGH CRITICAL level = "orange"
   <-> getLevelLabel MEDIUM HIGH CRITICAL level = "HIGH") /\
  (getLevelColor MEDIUM HIGH CRITICAL level = "yellow"
   <-> getLevelLabel MEDIUM HIGH CRITICAL level = "MEDIUM") /\
  (getLevelColor MEDIUM HIGH CRITICAL level = "gray"
   <-> getLevelLabel MEDIUM HIGH CRITICAL level = "UNKNOWN") /\
  (isHighRisk HIGH CRITICAL level = true
   <-> getLevelColor MEDIUM HIGH CRITICAL level = "red" \/
       getLevelColor MEDIUM HIGH CRITICAL level = "orange").
Proof.
  unfold getLevelColor, getLevelLabel, isHighRisk.
  destruct (level =? CRITICAL)%N, (level =? HIGH)%N, (level =? MEDIUM)%N;
    simpl; repeat split; intros; try done; try discriminate;
    try (by left); try (by right);
    try match goal with H : _ \/ _ |- _ => destruct H; discriminate end.
Qed.

Lemma resolve_id (m : gmap string (PluginFunction * PluginPackage))
    (id : string) :
  info_functionId (resolve UNSPECIFIED m id) = id.
Proof. unfold resolve. by destruct (m !! id) as [[func pkg]|]. Qed.

(** X23.  For a workflow whose latest code lists function ids, the
    grid has one card per listed id, in order, keyed by the id; the
    i-th card (from 0) is numbered i + 1, a connector follows every
    card but the last, and no card has an empty description.  The
    compact row has one icon per listed id, in order. *)
Theorem function_cards (workflow : Workflow) (latest : WorkflowCode) :
  latestCode workflow = Some latest ->
  pluginFunctionIds latest <> [] ->
  exists cards icons,
    WorkflowFunctionList UNSPECIFIED MEDIUM HIGH CRITICAL workflow false
      = Grid cards /\
    WorkflowFunctionList UNSPECIFIED MEDIUM HIGH CRITICAL workflow true
      = CompactRow icons /\
    card_key <$> cards = pluginFunctionIds latest /\
    compact_key <$> icons = pluginFunctionIds latest /\
    forall i c,
      cards !! i = Some c ->
      card_number c = Z.of_nat i + 1 /\
      card_connector c = bool_decide (S i < length cards)%nat /\
      card_description c <> "".
Proof.
  intros Hl Hne. unfold WorkflowFunctionList, extractFunctionInfo.
  rewrite Hl. cbv zeta.
  set (m := functionMapOf (pluginPackages latest)).
  assert (info_functionId <$> (resolve UNSPECIFIED m <$> pluginFunctionIds latest)
          = pluginFunctionIds latest) as Hids.
  { rewrite <- list_fmap_compose.
    rewrite <- (list_fmap_id (pluginFunctionIds latest)) at 2.
    apply list_fmap_ext. intros ? id _. apply resolve_id. }
  destruct (resolve UNSPECIFIED m <$> pluginFunctionIds latest)
    as [|info infos] eqn:Hinfos.
  { by rewrite <- Hids in Hne. }
  rewrite <- Hinfos in *. clear Hinfos.
  set (infos' := resolve UNSPECIFIED m <$> pluginFunctionIds latest) in *.
  eexists _, _. split; [reflexivity|]. split; [reflexivity|].
  split; [|split].
  - rewrite fmap_imap, <- Hids.
    rewrite <- (imap_const info_functionId infos'). by apply imap_ext.
  - by rewrite <- list_fmap_compose.
  - intros i c Hc. rewrite list_lookup_imap in Hc. rewrite length_imap.
    destruct (infos' !! i) as [x|] eqn:Hx; [|done]. injection Hc as <-.
    apply lookup_lt_Some in Hx.
    cbn [card_number card_connector card_description card].
    split; [done|]. split.
    + destruct (Z.eqb_spec (Z.of_nat i) (Z.of_nat (length infos') - 1)).
      * rewrite bool_decide_eq_false_2; [done|lia].
      * rewrite bool_decide_eq_true_2; [done|lia].
    + unfold or_else. destruct (decide (info_description x = "")); done.
Qed.

End Levels.

Lemma level_presentation_witness :
  isHighRisk 3%N 4%N 3%N = true /\ getLevelColor 2%N 3%N 4%N 3%N = "orange".
Proof.
  destruct (level_presentation 2%N 3%N 4%N 3%N) as (_ & _ & _ & _ & H).
  split; [reflexivity|].
  destruct (proj1 H eq_refl) as [Hr|Ho]; [discriminate Hr|exact Ho].
Defined.

Lemma function_cards_witness :
  exists cards icons,
    WorkflowFunctionList 0%N 2%N 3%N 4%N mail_workflow false = Grid cards /\
    WorkflowFunctionList 0%N 2%N 3%N 4%N mail_workflow true
      = CompactRow icons /\
    card_key <$> cards = ["mail.send"; "read_file"] /\
    compact_key <$> icons = ["mail.send"; "read_file"].
Proof.
  destruct (function_cards 0%N 2%N 3%N 4%N mail_workflow mail_code
              eq_refl ltac:(discriminate))
    as (cards & icons & Hg & Hc & Hk & Hi & _).
  exists cards, icons. split; [exact Hg|]. split; [exact Hc|].
  split; [exact Hk|exact Hi].
Defined.

End FunctionListViewFacts.

(** ** The side navigation *)

Module SideNavFacts.
Import SideNav MoreWords MoreSamples.

Lemma entries_cons (t : string -> string) (r : Route)
    (routes : list Route) :
  entries t (r :: routes)
  = (if bool_decide (key r = "plugins")
     then [NavItem (key r) (path r) (label r) (icon r);
           ExternalNavItem "store" "http://localhost:5173" (t "nav.store")]
     else [NavItem (key r) (path r) (label r) (icon r)])
    ++ entries t routes.
Proof. reflexivity. Qed.

(** X24.  The side navigation shows one internal item per route, in
    the order of the routes and with the route's key, path, label and
    icon.  Every external item is the store link (key "store", the
    fixed address, the label of "nav.store") and stands directly
    after the item of a route with key "plugins"; and every item of a
    route with key "plugins" is directly followed by the store
    link. *)
Theorem store_link_follows_plugins (t : string -> string)
    (routes : list Route) :
  omap nav_key (entries t routes) = key <$> routes /\
  (forall i k h l,
     entries t routes !! i = Some (ExternalNavItem k h l) ->
     k = "store" /\ h = "http://localhost:5173" /\ l = t "nav.store" /\
     exists j p lb ic,
       i = S j /\
       entries t routes !! j = Some (NavItem "plugins" p lb ic)) /\
  (forall j p lb ic,
     entries t routes !! j = Some (NavItem "plugins" p lb ic) ->
     entries t routes !! S j
     = Some (ExternalNavItem "store" "http://localhost:5173"
               (t "nav.store"))).
Proof.
  induction routes as [|r routes (IHk & IHe & IHp)].
  { split; [done|]. split; intros; done. }
  rewrite entries_cons.
  destruct (bool_decide (key r = "plugins")) eqn:Hr.
  - apply bool_decide_eq_true in Hr. split; [|split].
    + rewrite omap_app, IHk. reflexivity.
    + intros [|[|i]] k h l Hi; simpl in Hi.
      * discriminate.
      * injection Hi as <- <- <-. repeat split.
        exists 0%nat, (path r), (label r), (icon r).
        split; [done|]. simpl. by rewrite Hr.
      * destruct (IHe i k h l Hi) as (-> & -> & -> & j & p & lb & ic & -> & Hj).
        repeat split. exists (S (S j)), p, lb, ic. by split.
    + intros [|[|j]] p lb ic Hj; simpl in Hj |- *.
      * done.
      * discriminate.
      * by apply (IHp j p lb ic).
  - apply bool_decide_eq_false in Hr. split; [|split].
    + rewrite omap_app, IHk. reflexivity.
    + intros [|i] k h l Hi; simpl in Hi.
      * discriminate.
      * destruct (IHe i k h l Hi) as (-> & -> & -> & j & p & lb & ic & -> & Hj).
        repeat split. exists (S j), p, lb, ic. by split.
    + intros [|j] p lb ic Hj; simpl in Hj |- *.
      * injection Hj as Hk _ _ _. done.
      * by apply (IHp j p lb ic).
Qed.

Lemma store_link_follows_plugins_witness :
  entries (fun k => k) some_routes !! 2%nat
  = Some (ExternalNavItem "store" "http://localhost:5173" "nav.store").
Proof.
  apply (proj2 (proj2 (store_link_follows_plugins (fun k => k) some_routes))
           1%nat "/plugins" "Plugins" 1%nat).
  reflexivity.
Defined.

End SideNavFacts.
